(** * m17-mod: the driver of the M17 modulator pipeline

    A shallow embedding of [m17-mod.cpp]: the command-line configuration
    ([Config::parse]), the frame assembler loop and the teardown of [main],
    the capture thread, and the writes of the three agents (main thread,
    capture thread, SIGINT handler) to the atomic flag [running].

    [M17Modulator.h] is not part of the translated file: the frame length
    [bitstream.size()] and the two conversion functions are parameters of
    the sections that use them, and the calls into the modulator and the
    queues are recorded as events. *)

From Stdlib Require Import ZArith List String Bool Lia.
From stdpp Require Import base list.
Import ListNotations.

Local Open Scope string_scope.
Local Open Scope list_scope.
Local Open Scope Z_scope.

(** ** Command line: [Config::parse] (lines 12-99) *)

Module Cli.

(** What a stream receives: literal text, the rendering of the
    [options_description] by Boost, or [std::endl]. *)
Inductive out_item : Type :=
| Text (s : string)
| Desc
| Endl.

Definition VERSION : string := "1.0".

Record Config : Type := {
  source_address : string;
  destination_address : string;
  audio_device : string;
  event_device : string;
  key : Z;
  verbose : bool;
  debug : bool;
  quiet : bool;
  bitstream : bool
}.

(** [po::variables_map vm] as line 54 leaves it: which options the command
    line gave, and with what value.  A command line that
    [parse_command_line] refuses throws at line 54 and never reaches the
    tests below, so [parse] starts from the stored map. *)
Record variables_map : Type := {
  vm_help : bool;
  vm_version : bool;
  vm_src : option string;
  vm_dest : option string;
  vm_audio : option string;
  vm_event : option string;
  vm_key : option Z;
  vm_bitstream : bool;
  vm_verbose : bool;
  vm_debug : bool;
  vm_quiet : bool
}.

(** [Config result;] at line 28: empty strings, switches off; [key] has no
    initialiser and is overwritten by [notify] before any use. *)
Definition Config_default : Config :=
  {| source_address := ""; destination_address := ""; audio_device := "";
     event_device := ""; key := 0;
     verbose := false; debug := false; quiet := false; bitstream := false |}.

Definition event_default : string :=
  "/dev/input/by-id/usb-C-Media_Electronics_Inc._USB_Audio_Device-event-if03".

Definition key_default : Z := 385.

(** [po::notify(vm)]: throws when the required [src] is missing, otherwise
    stores every value (or its declared default) in the bound field; a field
    bound to an option without default keeps its value when the option is
    absent. *)
Definition notify (vm : variables_map) (result : Config) : string + Config :=
  match vm_src vm with
  | None => inl "the option '--src' is required but missing"
  | Some src =>
      inr {| source_address := src;
             destination_address :=
               match vm_dest vm with Some d => d | None => destination_address result end;
             audio_device :=
               match vm_audio vm with Some a => a | None => audio_device result end;
             event_device :=
               match vm_event vm with Some e => e | None => event_default end;
             key := match vm_key vm with Some k => k | None => key_default end;
             verbose := vm_verbose vm;
             debug := vm_debug vm;
             quiet := vm_quiet vm;
             bitstream := vm_bitstream vm |}
  end.

(** What [parse] returns and what it wrote on the way. *)
Record parsed : Type := {
  returned : option Config;
  to_cout : list out_item;
  to_cerr : list out_item
}.

Definition nullopt (out err : list out_item) : parsed :=
  {| returned := None; to_cout := out; to_cerr := err |}.

Definition newline : string := String (Ascii.ascii_of_nat 10) "".

Definition usage_banner : string :=
  String.append "Read audio from STDIN and write baseband M17 to STDOUT" newline.

Definition too_many_levels : string :=
  "Only one of quiet, verbos or debug may be chosen.".

Definition source_too_long : string := "Source identifier too long.".

Definition destination_too_long : string := "Destination identifier too long.".

Definition parse (argv0 : string) (vm : variables_map) : parsed :=
  let result := Config_default in
  if vm_help vm then
    nullopt [Text usage_banner; Desc; Endl] []
  else if vm_version vm then
    nullopt [Text argv0; Text ": "; Text VERSION; Endl] []
  else
    match notify vm result with
    | inl what => nullopt [Desc; Endl] [Text what; Endl]
    | inr result =>
        if Z.ltb 1 (Z.b2z (debug result) + Z.b2z (verbose result) + Z.b2z (quiet result)) then
          nullopt [] [Text too_many_levels; Endl]
        else if Nat.ltb 9 (String.length (source_address result)) then
          nullopt [] [Text source_too_long; Endl]
        else if Nat.ltb 9 (String.length (destination_address result)) then
          nullopt [] [Text destination_too_long; Endl]
        else
          {| returned := Some result; to_cout := []; to_cerr := [] |}
    end.

(** [debug + verbose + quiet], the sum tested at line 79. *)
Definition levels (vm : variables_map) : Z :=
  Z.b2z (vm_debug vm) + Z.b2z (vm_verbose vm) + Z.b2z (vm_quiet vm).

(** The same command line with the [src] option replaced. *)
Definition with_src (src : option string) (vm : variables_map) : variables_map :=
  {| vm_help := vm_help vm; vm_version := vm_version vm;
     vm_src := src; vm_dest := vm_dest vm;
     vm_audio := vm_audio vm; vm_event := vm_event vm;
     vm_key := vm_key vm; vm_bitstream := vm_bitstream vm;
     vm_verbose := vm_verbose vm; vm_debug := vm_debug vm;
     vm_quiet := vm_quiet vm |}.

(** A command line for the examples: [-S src] and nothing else. *)
Definition only_src (src : string) : variables_map :=
  {| vm_help := false; vm_version := false;
     vm_src := Some src; vm_dest := None;
     vm_audio := None; vm_event := None; vm_key := None;
     vm_bitstream := false; vm_verbose := false;
     vm_debug := false; vm_quiet := false |}.

(** A command line with [-h], no source, a destination of 11 characters,
    [-v] and [-d] together. *)
Definition help_and_conflict : variables_map :=
  {| vm_help := true; vm_version := false;
     vm_src := None; vm_dest := Some "DESTINATION";
     vm_audio := None; vm_event := None; vm_key := None;
     vm_bitstream := false; vm_verbose := true;
     vm_debug := true; vm_quiet := false |}.

(** The destination [notify] leaves in the configuration: the option's
    value, or the empty string of line 28 when the option is absent. *)
Definition dest_of (vm : variables_map) : string :=
  match vm_dest vm with Some d => d | None => "" end.

(** A command line for the examples: [-S src -D dst -k key -b -v]. *)
Definition full_line (src dst : string) (k : Z) : variables_map :=
  {| vm_help := false; vm_version := false;
     vm_src := Some src; vm_dest := Some dst;
     vm_audio := None; vm_event := None; vm_key := Some k;
     vm_bitstream := true; vm_verbose := true;
     vm_debug := false; vm_quiet := false |}.

(** A command line for the examples: [-V -S src -q -d]. *)
Definition version_line (src : string) : variables_map :=
  {| vm_help := false; vm_version := true;
     vm_src := Some src; vm_dest := None;
     vm_audio := None; vm_event := None; vm_key := None;
     vm_bitstream := false; vm_verbose := false;
     vm_debug := true; vm_quiet := true |}.

(** A command line for the examples: [-S src -D dst -v -q]. *)
Definition conflict_line (src dst : string) : variables_map :=
  {| vm_help := false; vm_version := false;
     vm_src := Some src; vm_dest := Some dst;
     vm_audio := None; vm_event := None; vm_key := None;
     vm_bitstream := false; vm_verbose := true;
     vm_debug := false; vm_quiet := true |}.

End Cli.

(** ** The main thread: [main] (lines 109-189) *)

Module Pipeline.

(** Calls and writes of the main thread, in program order. *)
Inductive event : Type :=
| Signal_install
| New_audio_queue
| New_bitstream_queue
| New_modulator (src dst : string)
| Modulator_run
| Ptt_on
| Cerr (s : string)
| Clog (s : string)
| Thread_start
| Queue_get (got : option Z)
| Is_closed (closed : bool)
| Cout_byte (b : Z)
| Cout_flush
| Running_store (b : bool)
| Ptt_off
| Wait_until_idle
| Thread_join
| Audio_queue_close
| Future_get
| Bitstream_queue_close.

(** What one pass of [while (running)] meets: the flag read false by the
    loop test, or (flag read true) the outcome of
    [bitstream_queue->get(bits, 1s)], with the answer of [is_closed()] when
    nothing came. *)
Inductive observation : Type :=
| Flag_down
| Bit_ready (b : Z)
| Starved (closed : bool).

(** How a pass ends: back to the loop test, out of the loop (test false or
    [break]), [assert] failure, or a store outside the frame. *)
Inductive control : Type :=
| Next
| Leave
| Assert_failed
| Out_of_range.

Definition size_t (z : Z) : Z := z mod 2 ^ 64.

Definition uint8_t (z : Z) : Z := z mod 256.

(** [uint8_t((b & 0xFF00) >> 8)] then [uint8_t(b & 0xFF)], line 172. *)
Definition big_endian (b : Z) : list event :=
  [Cout_byte (uint8_t (Z.shiftr (Z.land b 65280) 8)); Cout_byte (uint8_t (Z.land b 255))].

(** The locals of [main] that the loop uses, and the events so far. *)
Record assembler : Type := {
  bitstream : list Z;
  bits : Z;
  index : Z;
  trace : list event
}.

Definition record (es : list event) (st : assembler) : assembler :=
  {| bitstream := bitstream st; bits := bits st; index := index st;
     trace := trace st ++ es |}.

Definition closed_message : string :=
  "bitstream queue is closed; done transmitting.".

Section Assembler.

(** [bitstream.size()] and the converters of [M17Modulator], declared in
    [M17Modulator.h]. *)
Variable capacity : nat.
Variable symbols_t : Type.
Variable bytes_to_symbols : list Z -> symbols_t.
Variable symbols_to_baseband : symbols_t -> list Z.

(** Lines 148-175, one pass of the loop body after the loop test. *)
Definition iteration (to_bitstream : bool) (o : observation) (st : assembler)
  : control * assembler :=
  match o with
  | Flag_down => (Leave, st)
  | Starved closed =>
      let st := record [Queue_get None; Is_closed closed] st in
      if closed then
        (Leave, record [Clog closed_message; Running_store false] st)
      else (Assert_failed, st)
  | Bit_ready b =>
      let st := {| bitstream := bitstream st; bits := b; index := index st;
                   trace := trace st ++ [Queue_get (Some b)] |} in
      if to_bitstream then
        (* std::cout << bits; index += 1; *)
        let st := {| bitstream := bitstream st; bits := bits st;
                     index := size_t (index st + 1);
                     trace := trace st ++ [Cout_byte (bits st)] |} in
        if index st =? Z.of_nat capacity then
          (* [index == 0;] compares and discards: the cursor is unchanged *)
          (Next, record [Cout_flush] st)
        else (Next, st)
      else
        (* bitstream[index++] = bits; *)
        if (0 <=? index st) && (index st <? Z.of_nat capacity) then
          let st := {| bitstream := <[Z.to_nat (index st) := bits st]> (bitstream st);
                       bits := bits st;
                       index := size_t (index st + 1);
                       trace := trace st |} in
          if index st =? Z.of_nat capacity then
            let baseband := symbols_to_baseband (bytes_to_symbols (bitstream st)) in
            (Next, record (flat_map big_endian baseband ++ [Cout_flush]) st)
          else (Next, st)
        else (Out_of_range, st)
  end.

(** [while (running) { ... }], lines 146-176, along the observations of the
    run, up to the first pass that leaves the loop, fails the assertion or
    stores outside the array; [Next] at the end of the list: the thread is
    still in the loop.  After a store outside the array the source does not
    say what the program does, so the function describes the run up to that
    store and no further; [unread] gives the passes it has not looked at. *)
Fixpoint loop (to_bitstream : bool) (os : list observation) (st : assembler)
  : control * assembler :=
  match os with
  | [] => (Next, st)
  | o :: os =>
      match iteration to_bitstream o st with
      | (Next, st) => loop to_bitstream os st
      | stop => stop
      end
  end.

(** Lines 119-132: the queues, the modulator, key down, the capture thread. *)
Definition startup (config : Cli.Config) : list event :=
  [Signal_install; New_audio_queue; New_bitstream_queue;
   New_modulator (Cli.source_address config) (Cli.destination_address config);
   Modulator_run; Ptt_on;
   Cerr "m17-mod running. ctrl-D to break.";
   Thread_start].

(** The passes that [loop] has not looked at when it stops. *)
Fixpoint unread (to_bitstream : bool) (os : list observation) (st : assembler)
  : list observation :=
  match os with
  | [] => []
  | o :: os =>
      match iteration to_bitstream o st with
      | (Next, st) => unread to_bitstream os st
      | _ => os
      end
  end.

(** Lines 180-186, when every call returns. *)
Definition teardown : list event :=
  [Running_store false; Ptt_off; Wait_until_idle; Thread_join;
   Audio_queue_close; Future_get; Bitstream_queue_close].

(** The calls of lines 181-186. *)
Inductive call : Type :=
| Call_ptt_off
| Call_wait_until_idle
| Call_join
| Call_audio_close
| Call_future_get
| Call_bitstream_close.

(** How the teardown goes on.  Every call returns; or one call does not
    return ([join] waits for a capture thread that sits in its read,
    [wait_until_idle] and [future.get()] wait for the encoder); or one call
    throws ([future.get()] rethrows what the encoding task threw) and,
    [main] having no handler, the process terminates there. *)
Inductive fate : Type :=
| Returns
| Blocks (c : call)
| Throws (c : call).

(** Lines 180-186 up to and including the call [c]. *)
Definition teardown_to (c : call) : list event :=
  match c with
  | Call_ptt_off => [Running_store false; Ptt_off]
  | Call_wait_until_idle => [Running_store false; Ptt_off; Wait_until_idle]
  | Call_join => [Running_store false; Ptt_off; Wait_until_idle; Thread_join]
  | Call_audio_close =>
      [Running_store false; Ptt_off; Wait_until_idle; Thread_join; Audio_queue_close]
  | Call_future_get =>
      [Running_store false; Ptt_off; Wait_until_idle; Thread_join; Audio_queue_close;
       Future_get]
  | Call_bitstream_close =>
      [Running_store false; Ptt_off; Wait_until_idle; Thread_join; Audio_queue_close;
       Future_get; Bitstream_queue_close]
  end.

(** [M17Modulator::bitstream_t bitstream; uint8_t bits; size_t index = 0;]
    The array and [bits] have no initialiser: they hold what their storage
    held, [storage i] for element [i] and [storage capacity] for [bits]. *)
Definition locals (storage : nat -> Z) (es : list event) : assembler :=
  {| bitstream := map storage (seq 0 capacity); bits := storage capacity;
     index := 0; trace := es |}.

(** What the platform and the other agents show the main thread: whether
    line 143 ever reads the flag true, the passes of the loop, the content
    of the uninitialised locals, and how the calls of the teardown go. *)
Record environment : Type := {
  started : bool;
  passes : list observation;
  storage : nat -> Z;
  ending : fate
}.

(** Where a run is when the model has nothing more to say.  [Undefined]:
    line 168 has stored outside the array, and the source no longer
    determines what the program does; the outcome carries the passes not
    yet looked at, and the events of the run are those up to that store.
    [Waiting]: a call of the teardown has not returned.  [Terminate]: an
    exception left [main]. *)
Inductive outcome : Type :=
| Exit (code : Z)
| Abort
| Undefined (rest : list observation)
| Spinning
| Looping
| Waiting
| Terminate.

Record run : Type := {
  result : outcome;
  events : list event;
  cout : list Cli.out_item;
  cerr : list Cli.out_item
}.

Definition EXIT_SUCCESS : Z := 0.

Definition main (argv0 : string) (vm : Cli.variables_map) (env : environment) : run :=
  let p := Cli.parse argv0 vm in
  let stop r es := {| result := r; events := es;
                      cout := Cli.to_cout p; cerr := Cli.to_cerr p |} in
  match Cli.returned p with
  | None => stop (Exit 0) []
  | Some config =>
      if started env then
        let st0 := locals (storage env) (startup config) in
        match loop (Cli.bitstream config) (passes env) st0 with
        | (Next, st) => stop Looping (trace st)
        | (Leave, st) =>
            let es := trace st ++ [Clog "No longer running"] in
            match ending env with
            | Returns => stop (Exit EXIT_SUCCESS) (es ++ teardown)
            | Blocks c => stop Waiting (es ++ teardown_to c)
            | Throws c => stop Terminate (es ++ teardown_to c)
            end
        | (Assert_failed, st) => stop Abort (trace st)
        | (Out_of_range, st) =>
            stop (Undefined (unread (Cli.bitstream config) (passes env) st0)) (trace st)
        end
      else stop Spinning (startup config)
  end.

End Assembler.

Definition flushes (es : list event) : nat :=
  length (List.filter (fun e => match e with Cout_flush => true | _ => false end) es).

Definition bytes_written (es : list event) : nat :=
  length (List.filter (fun e => match e with Cout_byte _ => true | _ => false end) es).



(** The bytes handed to [std::cout], in order. *)
Definition written (es : list event) : list Z :=
  flat_map (fun e => match e with Cout_byte b => [b] | _ => [] end) es.

(** The values stored to [running] by the main thread, in order. *)
Definition stores (es : list event) : list bool :=
  flat_map (fun e => match e with Running_store b => [b] | _ => [] end) es.

Definition key_downs (es : list event) : nat :=
  length (List.filter (fun e => match e with Ptt_on => true | _ => false end) es).

Definition key_ups (es : list event) : nat :=
  length (List.filter (fun e => match e with Ptt_off => true | _ => false end) es).

(** An environment for the examples: the flag is seen true at line 143,
    the storage of the locals holds 7 everywhere. *)
Definition seen (ps : list observation) (f : fate) : environment :=
  {| started := true; passes := ps; storage := fun _ => 7; ending := f |}.

(** The 16-bit value that a high byte and a low byte spell. *)
Definition of_big_endian (hi lo : Z) : Z := 256 * hi + lo.

(** The events a pass of the loop can add: the queue calls, the log line,
    a store of [false] to the flag, and the writes to [std::cout]. *)
Definition loop_event (e : event) : bool :=
  match e with
  | Queue_get _ | Is_closed _ | Clog _ | Cout_byte _ | Cout_flush => true
  | Running_store b => negb b
  | _ => false
  end.

End Pipeline.

(** ** The capture thread: the lambda of lines 132-141 *)

Module Capture.

Inductive event : Type :=
| Running_store (b : bool)
| Read (gcount : nat)
| Put (sample : Z).

Definition int16_t (z : Z) : Z := (z + 32768) mod 65536 - 32768.

(** [sample] after [read] has filled both of its bytes (the host stores the
    low byte first). *)
Definition of_bytes (lo hi : Z) : Z := int16_t (lo + 256 * hi).

(** [sample] after a read of one byte: the first byte is overwritten, the
    second keeps what it had. *)
Definition first_byte (lo sample : Z) : Z :=
  of_bytes lo ((sample mod 65536) / 256).

(** [while (running && std::cin) { read; put }].  [running_at k] is the
    value the [k]-th loop test reads from the flag, which the other agents
    may have cleared.  A read that gets fewer than two bytes leaves [cin]
    failed, so the test after it ends the loop whatever the flag says; the
    [put] of line 138 comes before that test. *)
Fixpoint loop (running_at : nat -> bool) (k : nat) (cin : list Z) (sample : Z)
  : list event :=
  if running_at k then
    match cin with
    | lo :: hi :: rest =>
        let sample := of_bytes lo hi in
        Read 2 :: Put sample :: loop running_at (S k) rest sample
    | [lo] =>
        let sample := first_byte lo sample in
        [Read 1; Put sample]
    | [] => [Read 0; Put sample]
    end
  else [].

Definition thread (running_at : nat -> bool) (cin : list Z) : list event :=
  Running_store true :: loop running_at 0 cin 0 ++ [Running_store false].

(** The samples handed to [audio_queue->put], in order. *)
Definition puts (es : list event) : list Z :=
  flat_map (fun e => match e with Put s => [s] | _ => [] end) es.

(** The samples the input holds in full: one per complete pair of bytes. *)
Fixpoint samples (cin : list Z) : list Z :=
  match cin with
  | lo :: hi :: rest => of_bytes lo hi :: samples rest
  | _ => []
  end.

End Capture.

(** ** The flag [running] and the agents that write it *)

Module Flag.

(** Program points of the main thread. *)
Inductive main_pc : Type :=
| M_parse        (* line 114 *)
| M_setup        (* lines 119-132, handler installed, thread not yet created *)
| M_spin         (* line 143 *)
| M_test         (* line 146 *)
| M_get          (* line 148 *)
| M_emit         (* lines 156-175 *)
| M_clear        (* line 180 *)
| M_join         (* lines 181-183 *)
| M_close        (* lines 184-188 *)
| M_gone.        (* returned, aborted, or past an out-of-range store *)

(** Program points of the capture thread. *)
Inductive capture_pc : Type :=
| C_unborn
| C_entry        (* line 134 *)
| C_test         (* line 135 *)
| C_read         (* line 137 *)
| C_put          (* line 138 *)
| C_exit         (* line 140 *)
| C_done.

Record state : Type := {
  running : bool;
  main : main_pc;
  capture : capture_pc;
  handler : bool
}.

(** [std::atomic<bool> running{false};] *)
Definition initial : state :=
  {| running := false; main := M_parse; capture := C_unborn; handler := false |}.

(** One atomic action of one agent. *)
Inductive label : Type :=
| Main_reject           (* 115: return 0 *)
| Main_install          (* 117 *)
| Main_spawn            (* 132 *)
| Main_spin             (* 143, flag read false *)
| Main_go               (* 143, flag read true *)
| Main_enter            (* 146, flag read true *)
| Main_leave            (* 146, flag read false *)
| Main_get_bit          (* 148, a bit came *)
| Main_get_closed       (* 148-153: running = false; break *)
| Main_get_open         (* 150: assert fails *)
| Main_emit             (* 156-175 *)
| Main_fault            (* 168: store outside the frame *)
| Main_clear            (* 180: running = false *)
| Main_join             (* 181-183 *)
| Main_return           (* 184-188 *)
| Cap_entry             (* 134: running = true *)
| Cap_enter             (* 135, condition true *)
| Cap_leave             (* 135, condition false *)
| Cap_read              (* 137 *)
| Cap_put               (* 138 *)
| Cap_exit              (* 140: running = false *)
| Sigint.               (* 105: running = false *)

(** The value a step stores in [running], if it stores one. *)
Definition store (l : label) : option bool :=
  match l with
  | Cap_entry => Some true
  | Main_get_closed | Main_clear | Cap_exit | Sigint => Some false
  | _ => None
  end.

Definition main_step (l : label) (s : state) : option main_pc :=
  match l, main s with
  | Main_reject, M_parse => Some M_gone
  | Main_install, M_parse => Some M_setup
  | Main_spawn, M_setup => Some M_spin
  | Main_spin, M_spin => if running s then None else Some M_spin
  | Main_go, M_spin => if running s then Some M_test else None
  | Main_enter, M_test => if running s then Some M_get else None
  | Main_leave, M_test => if running s then None else Some M_clear
  | Main_get_bit, M_get => Some M_emit
  | Main_get_closed, M_get => Some M_clear
  | Main_get_open, M_get => Some M_gone
  | Main_emit, M_emit => Some M_test
  | Main_fault, M_emit => Some M_gone
  | Main_clear, M_clear => Some M_join
  | Main_join, M_join =>
      match capture s with C_done => Some M_close | _ => None end
  | Main_return, M_close => Some M_gone
  | _, _ => None
  end.

Definition capture_step (l : label) (s : state) : option capture_pc :=
  match l, capture s with
  | Main_spawn, C_unborn => Some C_entry
  | Cap_entry, C_entry => Some C_test
  | Cap_enter, C_test => if running s then Some C_read else None
  | Cap_leave, C_test => Some C_exit
  | Cap_read, C_read => Some C_put
  | Cap_put, C_put => Some C_test
  | Cap_exit, C_exit => Some C_done
  | _, _ => None
  end.

Definition by_main (l : label) : bool :=
  match l with
  | Main_reject | Main_install | Main_spawn | Main_spin | Main_go
  | Main_enter | Main_leave | Main_get_bit | Main_get_closed | Main_get_open
  | Main_emit | Main_fault | Main_clear | Main_join | Main_return => true
  | _ => false
  end.

Definition by_capture (l : label) : bool :=
  match l with
  | Cap_entry | Cap_enter | Cap_leave | Cap_read | Cap_put | Cap_exit => true
  | _ => false
  end.

Definition alive (s : state) : bool :=
  match main s with M_gone => false | _ => true end.

Definition write (l : label) (b : bool) : bool :=
  match store l with Some v => v | None => b end.

(** A step of the process: the acting agent moves, the flag takes the
    stored value.  Nothing moves once the process is gone, and SIGINT
    reaches the handler only after line 117. *)
Definition step (l : label) (s : state) : option state :=
  if negb (alive s) then None
  else if by_main l then
    match main_step l s with
    | Some m =>
        Some {| running := write l (running s); main := m;
                capture := match capture_step l s with
                           | Some c => c
                           | None => capture s
                           end;
                handler := match l with Main_install => true | _ => handler s end |}
    | None => None
    end
  else if by_capture l then
    match capture_step l s with
    | Some c =>
        Some {| running := write l (running s); main := main s;
                capture := c; handler := handler s |}
    | None => None
    end
  else
    if handler s then
      Some {| running := write l (running s); main := main s;
              capture := capture s; handler := handler s |}
    else None.

Fixpoint exec (ls : list label) (s : state) : option state :=
  match ls with
  | [] => Some s
  | l :: ls => match step l s with Some s' => exec ls s' | None => None end
  end.

(** The capture thread is past its store of [true]. *)
Definition entered (s : state) : bool :=
  match capture s with C_unborn | C_entry => false | _ => true end.

(** The main thread is past the wait of line 143. *)
Definition past_spin (s : state) : bool :=
  match main s with
  | M_test | M_get | M_emit | M_clear | M_join | M_close => true
  | _ => false
  end.

(** How many steps of a schedule store [true] to the flag. *)
Definition true_stores (ls : list label) : nat :=
  length (List.filter (fun l => match store l with Some true => true | _ => false end) ls).

(** What holds of the flag, the capture thread and the handler at each
    program point of the main thread. *)
Definition coherent (s : state) : bool :=
  let unborn := match capture s with C_unborn => true | _ => false end in
  let done := match capture s with C_done => true | _ => false end in
  match main s with
  | M_parse => unborn && negb (running s) && negb (handler s)
  | M_setup => unborn && negb (running s) && handler s
  | M_spin => negb unborn && handler s && implb (running s) (entered s)
  | M_test | M_get | M_emit | M_clear => handler s && entered s
  | M_join => handler s && entered s && negb (running s)
  | M_close => handler s && done && negb (running s)
  | M_gone => implb (negb unborn) (handler s)
  end.

End Flag.

(** * Properties *)

(** ** Configuration *)

Lemma parse_help argv0 vm :
  Cli.vm_help vm = true ->
  Cli.parse argv0 vm = Cli.nullopt [Cli.Text Cli.usage_banner; Cli.Desc; Cli.Endl] [].
Proof. intros H. unfold Cli.parse. now rewrite H. Qed.

Lemma parse_none_exit
  capacity symbols_t (b2s : list Z -> symbols_t) (s2b : symbols_t -> list Z)
  argv0 vm env :
  Cli.returned (Cli.parse argv0 vm) = None ->
  Pipeline.result (Pipeline.main capacity symbols_t b2s s2b argv0 vm env) = Pipeline.Exit 0 /\
  Pipeline.events (Pipeline.main capacity symbols_t b2s s2b argv0 vm env) = [].
Proof. intros H. unfold Pipeline.main. rewrite H. split; reflexivity. Qed.

Lemma parse_source_too_long argv0 vm src :
  Cli.vm_src vm = Some src ->
  (9 < String.length src)%nat ->
  Cli.returned (Cli.parse argv0 vm) = None /\
  (Cli.to_cout (Cli.parse argv0 vm) ++ Cli.to_cerr (Cli.parse argv0 vm) <> []) /\
  (Cli.vm_help vm = false -> Cli.vm_version vm = false -> Cli.levels vm <= 1 ->
   Cli.parse argv0 vm = Cli.nullopt [] [Cli.Text Cli.source_too_long; Cli.Endl]).
Proof.
  intros Hsrc Hlen.
  assert (Hlong : Nat.ltb 9 (String.length src) = true) by (apply Nat.ltb_lt; exact Hlen).
  unfold Cli.parse, Cli.notify, Cli.levels. rewrite Hsrc. cbn [Cli.source_address
    Cli.debug Cli.verbose Cli.quiet]. rewrite Hlong.
  destruct (Cli.vm_help vm); [cbn; repeat split; congruence|].
  destruct (Cli.vm_version vm); [cbn; repeat split; congruence|].
  destruct (Z.ltb_spec 1 (Z.b2z (Cli.vm_debug vm) + Z.b2z (Cli.vm_verbose vm)
                          + Z.b2z (Cli.vm_quiet vm))) as [Hconf|Hok].
  - cbn. repeat split; try congruence. intros _ _ Hle. lia.
  - cbn. repeat split; congruence.
Qed.

(** C7. A source identifier of more than 9 characters never yields a
    configuration: [parse] returns [nullopt] after writing to the user,
    [main] returns 0, and no event of the run (no queue constructed, no
    thread started) precedes the return.  When the tests that come first
    in [parse] (help, version, the verbosity conflict) do not fire, what
    is written is the line "Source identifier too long." on [cerr]. *)
Theorem oversized_source_rejected
  capacity symbols_t (b2s : list Z -> symbols_t) (s2b : symbols_t -> list Z)
  argv0 vm env src :
  Cli.vm_src vm = Some src ->
  (9 < String.length src)%nat ->
  let p := Cli.parse argv0 vm in
  let r := Pipeline.main capacity symbols_t b2s s2b argv0 vm env in
  Cli.returned p = None /\
  (Cli.to_cout p ++ Cli.to_cerr p <> []) /\
  (Cli.vm_help vm = false -> Cli.vm_version vm = false -> Cli.levels vm <= 1 ->
   p = Cli.nullopt [] [Cli.Text Cli.source_too_long; Cli.Endl]) /\
  Pipeline.result r = Pipeline.Exit 0 /\
  Pipeline.events r = [] /\
  Pipeline.cerr r = Cli.to_cerr p.
Proof.
  intros Hsrc Hlen p r.
  destruct (parse_source_too_long argv0 vm src Hsrc Hlen) as (Hnone & Hsaid & Hmsg).
  destruct (parse_none_exit capacity symbols_t b2s s2b argv0 vm env Hnone) as (Hres & Hev).
  split; [exact Hnone|]. split; [exact Hsaid|]. split; [exact Hmsg|].
  split; [exact Hres|]. split; [exact Hev|].
  subst r p. unfold Pipeline.main. now rewrite Hnone.
Qed.

Lemma oversized_source_rejected_witness :
  let vm := Cli.only_src "N0CALLSIGN" in
  let r := Pipeline.main 4 (list Z) (fun x => x) (fun x => x) "m17-mod" vm
             (Pipeline.seen [] Pipeline.Returns) in
  Cli.vm_src vm = Some "N0CALLSIGN" /\
  (9 < String.length "N0CALLSIGN")%nat /\
  Cli.parse "m17-mod" vm = Cli.nullopt [] [Cli.Text Cli.source_too_long; Cli.Endl] /\
  Pipeline.result r = Pipeline.Exit 0 /\
  Pipeline.events r = [].
Proof.
  intros vm r.
  pose proof (oversized_source_rejected 4 (list Z) (fun x => x) (fun x => x)
                "m17-mod" vm (Pipeline.seen [] Pipeline.Returns)
                "N0CALLSIGN" eq_refl ltac:(cbn; lia)) as H.
  cbv zeta in H. destruct H as (_ & _ & Hmsg & Hres & Hev & _).
  split; [reflexivity|]. split; [cbn; lia|].
  split; [apply Hmsg; [reflexivity | reflexivity | vm_compute; discriminate]|].
  split; [exact Hres | exact Hev].
Defined.

(** C9. With the help option on the command line, [parse] writes the usage
    text and returns [nullopt] whatever the other options are: a missing or
    oversized source and conflicting verbosity switches are not looked at,
    nothing goes to [cerr], and [main] returns 0 before any queue or thread
    exists. *)
Theorem help_precedes_validation
  capacity symbols_t (b2s : list Z -> symbols_t) (s2b : symbols_t -> list Z)
  argv0 vm env :
  Cli.vm_help vm = true ->
  let r := Pipeline.main capacity symbols_t b2s s2b argv0 vm env in
  Cli.parse argv0 vm = Cli.nullopt [Cli.Text Cli.usage_banner; Cli.Desc; Cli.Endl] [] /\
  Pipeline.result r = Pipeline.Exit 0 /\
  Pipeline.events r = [] /\
  Pipeline.cout r = [Cli.Text Cli.usage_banner; Cli.Desc; Cli.Endl] /\
  Pipeline.cerr r = [].
Proof.
  intros Hhelp r. pose proof (parse_help argv0 vm Hhelp) as Hp.
  split; [exact Hp|]. subst r. unfold Pipeline.main. rewrite Hp. cbn.
  repeat split.
Qed.

Lemma help_precedes_validation_witness :
  Cli.vm_help Cli.help_and_conflict = true /\
  Cli.returned (Cli.parse "m17-mod" Cli.help_and_conflict) = None /\
  Pipeline.result
    (Pipeline.main 4 (list Z) (fun x => x) (fun x => x) "m17-mod" Cli.help_and_conflict
       (Pipeline.seen [] Pipeline.Returns)) = Pipeline.Exit 0.
Proof.
  pose proof (help_precedes_validation 4 (list Z) (fun x => x) (fun x => x)
                "m17-mod" Cli.help_and_conflict
                (Pipeline.seen [] Pipeline.Returns) eq_refl) as H.
  cbv zeta in H. destruct H as (Hp & Hres & _).
  split; [reflexivity|]. split; [now rewrite Hp | exact Hres].
Defined.

(** C10. The destination is optional: on a command line without help or
    version, with at most one verbosity switch, a source of at most 9
    characters and no destination, [parse] returns a configuration whose
    destination is the empty string, and writes nothing.  The source is
    required: on every command line without help or version that has no
    source, whatever its other options, [parse] returns [nullopt], writes
    the missing-option message to [cerr] and the options to [cout]. *)
Theorem destination_optional_source_required :
  (forall argv0 vm src,
      Cli.vm_help vm = false -> Cli.vm_version vm = false ->
      Cli.levels vm <= 1 ->
      Cli.vm_src vm = Some src -> (String.length src <= 9)%nat ->
      Cli.vm_dest vm = None ->
      exists config,
        Cli.returned (Cli.parse argv0 vm) = Some config /\
        Cli.to_cout (Cli.parse argv0 vm) = [] /\
        Cli.to_cerr (Cli.parse argv0 vm) = [] /\
        Cli.source_address config = src /\
        Cli.destination_address config = "") /\
  (forall argv0 vm,
      Cli.vm_help vm = false -> Cli.vm_version vm = false ->
      Cli.vm_src vm = None ->
      Cli.returned (Cli.parse argv0 vm) = None /\
      Cli.to_cerr (Cli.parse argv0 vm)
        = [Cli.Text "the option '--src' is required but missing"; Cli.Endl] /\
      Cli.to_cout (Cli.parse argv0 vm) = [Cli.Desc; Cli.Endl]).
Proof.
  split.
  - intros argv0 vm src Hhelp Hver Hlev Hsrc Hlen Hdest. unfold Cli.levels in Hlev.
    assert (Hshort : Nat.ltb 9 (String.length src) = false)
      by (apply Nat.ltb_ge; exact Hlen).
    assert (Hone : Z.ltb 1 (Z.b2z (Cli.vm_debug vm) + Z.b2z (Cli.vm_verbose vm)
                            + Z.b2z (Cli.vm_quiet vm)) = false)
      by (apply Z.ltb_ge; exact Hlev).
    eexists. unfold Cli.parse, Cli.notify.
    rewrite Hhelp, Hver, Hsrc, Hdest.
    cbn [Cli.source_address Cli.destination_address
         Cli.debug Cli.verbose Cli.quiet Cli.Config_default].
    rewrite Hone, Hshort.
    change (Nat.ltb 9 (String.length "")) with false. cbv iota.
    cbn [Cli.returned Cli.to_cout Cli.to_cerr].
    split; [reflexivity|]. repeat split.
  - intros argv0 vm Hhelp Hver Hsrc. unfold Cli.parse, Cli.notify.
    rewrite Hhelp, Hver, Hsrc. repeat split.
Qed.

Lemma destination_optional_source_required_witness :
  (exists config,
      Cli.returned (Cli.parse "m17-mod" (Cli.only_src "N0CALL")) = Some config /\
      Cli.destination_address config = "") /\
  Cli.returned
    (Cli.parse "m17-mod" (Cli.with_src None (Cli.conflict_line "N0CALL" "W1AW"))) = None /\
  Cli.to_cerr
    (Cli.parse "m17-mod" (Cli.with_src None (Cli.conflict_line "N0CALL" "W1AW")))
  = [Cli.Text "the option '--src' is required but missing"; Cli.Endl].
Proof.
  destruct destination_optional_source_required as (Hopt & Hreq).
  destruct (Hopt "m17-mod" (Cli.only_src "N0CALL") "N0CALL"
              eq_refl eq_refl ltac:(vm_compute; discriminate) eq_refl
              ltac:(cbn; lia) eq_refl) as (config & Hp & _ & _ & _ & Hd).
  destruct (Hreq "m17-mod" (Cli.with_src None (Cli.conflict_line "N0CALL" "W1AW"))
              eq_refl eq_refl eq_refl) as (Hn & He & _).
  split; [exists config; split; [exact Hp | exact Hd]|].
  split; [exact Hn | exact He].
Defined.

(** ** The frame assembler *)

Section AssemblerFacts.

Import Pipeline.

Variable capacity : nat.
Variable symbols_t : Type.
Variable bytes_to_symbols : list Z -> symbols_t.
Variable symbols_to_baseband : symbols_t -> list Z.
Variable junk : nat -> Z.

Local Abbreviation iteration := (iteration capacity symbols_t bytes_to_symbols symbols_to_baseband).
Local Abbreviation loop := (loop capacity symbols_t bytes_to_symbols symbols_to_baseband).
Local Abbreviation locals := (locals capacity junk).

Lemma size_t_small z : 0 <= z < 2 ^ 64 -> size_t z = z.
Proof. intros H. unfold size_t. now apply Z.mod_small. Qed.

Lemma flushes_app es1 es2 : flushes (es1 ++ es2) = (flushes es1 + flushes es2)%nat.
Proof. unfold flushes. now rewrite List.filter_app, length_app. Qed.

Lemma flushes_big_endian l : flushes (flat_map big_endian l) = 0%nat.
Proof. induction l as [|b l IH]; [reflexivity|]. cbn. exact IH. Qed.

Lemma bytes_written_app es1 es2 :
  bytes_written (es1 ++ es2) = (bytes_written es1 + bytes_written es2)%nat.
Proof. unfold bytes_written. now rewrite List.filter_app, length_app. Qed.

Lemma loop_app mode os1 os2 st :
  loop mode (os1 ++ os2) st =
  match loop mode os1 st with
  | (Next, st1) => loop mode os2 st1
  | stop => stop
  end.
Proof.
  revert st. induction os1 as [|o os1 IH]; intros st; [reflexivity|].
  cbn [app Pipeline.loop]. destruct (iteration mode o st) as [[] st1]; try reflexivity.
  apply IH.
Qed.

(** One bit in bitstream mode: written at once, the cursor moves on and is
    never put back. *)
Lemma bitstream_pass b st :
  0 <= index st -> index st + 1 < 2 ^ 64 ->
  exists st1,
    iteration true (Bit_ready b) st = (Next, st1) /\
    index st1 = index st + 1 /\
    bitstream st1 = bitstream st /\
    bytes_written (trace st1) = S (bytes_written (trace st)) /\
    flushes (trace st1)
      = (flushes (trace st) + if (index st + 1 =? Z.of_nat capacity)%Z then 1 else 0)%nat.
Proof.
  intros H0 H1. unfold Pipeline.iteration. cbn [index bits bitstream trace].
  rewrite size_t_small by lia.
  destruct (index st + 1 =? Z.of_nat capacity); eexists; (split; [reflexivity|]);
    unfold record; cbn [index bits bitstream trace];
    rewrite ?bytes_written_app, ?flushes_app; cbn; repeat split; lia.
Qed.

Lemma bitstream_run B : forall st,
  0 <= index st -> index st + Z.of_nat (length B) < 2 ^ 64 ->
  exists st1,
    loop true (map Bit_ready B) st = (Next, st1) /\
    index st1 = index st + Z.of_nat (length B) /\
    bitstream st1 = bitstream st /\
    bytes_written (trace st1) = (bytes_written (trace st) + length B)%nat /\
    flushes (trace st1)
      = (flushes (trace st)
         + if ((index st <? Z.of_nat capacity)
               && (Z.of_nat capacity <=? index st + Z.of_nat (length B)))%Z
           then 1 else 0)%nat.
Proof.
  induction B as [|b B IH]; intros st H0 H1.
  - exists st. cbn [map Pipeline.loop length]. repeat split; try lia.
    destruct (Z.ltb_spec (index st) (Z.of_nat capacity));
      destruct (Z.leb_spec (Z.of_nat capacity) (index st + Z.of_nat 0)); cbn; lia.
  - cbn [length] in H1. rewrite Nat2Z.inj_succ in H1.
    destruct (bitstream_pass b st H0 ltac:(lia)) as (st1 & Hit & Hi & Hb & Hw & Hf).
    destruct (IH st1 ltac:(lia) ltac:(lia)) as (st2 & Hl & Hi2 & Hb2 & Hw2 & Hf2).
    exists st2. cbn [map Pipeline.loop length]. rewrite Hit, Hl, Nat2Z.inj_succ.
    split; [reflexivity|]. split; [lia|]. split; [congruence|]. split; [lia|].
    rewrite Hf2, Hf, Hi.
    destruct (Z.eqb_spec (index st + 1) (Z.of_nat capacity));
      destruct (Z.ltb_spec (index st + 1) (Z.of_nat capacity));
      destruct (Z.ltb_spec (index st) (Z.of_nat capacity));
      destruct (Z.leb_spec (Z.of_nat capacity) (index st + 1 + Z.of_nat (length B)));
      destruct (Z.leb_spec (Z.of_nat capacity) (index st + Z.succ (Z.of_nat (length B))));
      cbn; lia.
Qed.

(** One bit in baseband mode while the cursor is inside the frame. *)
Lemma baseband_pass b st :
  0 <= index st < Z.of_nat capacity -> Z.of_nat capacity < 2 ^ 64 ->
  length (bitstream st) = capacity ->
  exists st1,
    iteration false (Bit_ready b) st = (Next, st1) /\
    index st1 = index st + 1 /\
    bitstream st1 = <[Z.to_nat (index st) := b]> (bitstream st) /\
    flushes (trace st1)
      = (flushes (trace st) + if (index st + 1 =? Z.of_nat capacity)%Z then 1 else 0)%nat.
Proof.
  intros H0 H1 Hlen. unfold Pipeline.iteration. cbn [index bits bitstream trace].
  destruct (Z.leb_spec 0 (index st)); [|lia].
  destruct (Z.ltb_spec (index st) (Z.of_nat capacity)); [|lia].
  cbn [andb]. rewrite size_t_small by lia.
  destruct (index st + 1 =? Z.of_nat capacity); eexists; (split; [reflexivity|]);
    unfold record; cbn [index bits bitstream trace];
    rewrite ?flushes_app, ?flushes_big_endian; cbn; repeat split; lia.
Qed.

(** A bit that arrives in baseband mode when the cursor is at the end of
    the frame is stored outside it. *)
Lemma baseband_overrun_pass b st :
  index st = Z.of_nat capacity ->
  iteration false (Bit_ready b) st
  = (Out_of_range,
     {| bitstream := bitstream st; bits := b; index := index st;
        trace := trace st ++ [Queue_get (Some b)] |}).
Proof.
  intros Hi. unfold Pipeline.iteration. cbn [index bits bitstream trace].
  destruct (Z.ltb_spec (index st) (Z.of_nat capacity)); [lia|].
  now rewrite andb_false_r.
Qed.

Lemma baseband_run B : forall st,
  0 <= index st -> index st + Z.of_nat (length B) <= Z.of_nat capacity ->
  Z.of_nat capacity < 2 ^ 64 ->
  length (bitstream st) = capacity ->
  exists st1,
    loop false (map Bit_ready B) st = (Next, st1) /\
    index st1 = index st + Z.of_nat (length B) /\
    length (bitstream st1) = capacity /\
    flushes (trace st1)
      = (flushes (trace st)
         + if ((index st <? Z.of_nat capacity)
               && (index st + Z.of_nat (length B) =? Z.of_nat capacity))%Z
           then 1 else 0)%nat.
Proof.
  induction B as [|b B IH]; intros st H0 H1 Hcap Hlen.
  - exists st. cbn [map Pipeline.loop length]. repeat split; try lia.
    destruct (Z.ltb_spec (index st) (Z.of_nat capacity));
      destruct (Z.eqb_spec (index st + Z.of_nat 0) (Z.of_nat capacity)); cbn; lia.
  - cbn [length] in H1. rewrite Nat2Z.inj_succ in H1.
    destruct (baseband_pass b st ltac:(lia) Hcap Hlen) as (st1 & Hit & Hi & Hb & Hf).
    assert (Hlen1 : length (bitstream st1) = capacity)
      by (rewrite Hb, length_insert; exact Hlen).
    destruct (IH st1 ltac:(lia) ltac:(lia) Hcap Hlen1) as (st2 & Hl & Hi2 & Hb2 & Hf2).
    exists st2. cbn [map Pipeline.loop length]. rewrite Hit, Hl, Nat2Z.inj_succ.
    split; [reflexivity|]. split; [lia|]. split; [exact Hb2|].
    rewrite Hf2, Hf, Hi.
    destruct (Z.eqb_spec (index st + 1) (Z.of_nat capacity));
      destruct (Z.ltb_spec (index st + 1) (Z.of_nat capacity));
      destruct (Z.ltb_spec (index st) (Z.of_nat capacity));
      destruct (Z.eqb_spec (index st + 1 + Z.of_nat (length B)) (Z.of_nat capacity));
      destruct (Z.eqb_spec (index st + Z.succ (Z.of_nat (length B))) (Z.of_nat capacity));
      cbn; lia.
Qed.

(** More bits than one frame in baseband mode: the first frame goes out,
    the bit after it is stored at [bitstream[capacity]]. *)
Lemma baseband_overrun B es :
  (0 < capacity < length B)%nat -> Z.of_nat capacity < 2 ^ 64 ->
  exists st1,
    loop false (map Bit_ready B) (locals es) = (Out_of_range, st1) /\
    index st1 = Z.of_nat capacity /\
    length (bitstream st1) = capacity /\
    flushes (trace st1) = S (flushes es).
Proof.
  intros Hlt Hcap.
  rewrite <- (firstn_skipn capacity B), map_app, loop_app.
  assert (Hfirst : length (firstn capacity B) = capacity)
    by (rewrite length_firstn; lia).
  destruct (baseband_run (firstn capacity B) (locals es)) as (st1 & Hl & Hi & Hb & Hf).
  { cbn. lia. }
  { cbn. lia. }
  { exact Hcap. }
  { cbn. now rewrite length_map, length_seq. }
  rewrite Hl. cbn [index trace Pipeline.locals] in Hi, Hf. rewrite Hfirst in Hi, Hf.
  destruct (skipn capacity B) as [|b rest] eqn:Hrest.
  { apply (f_equal (@length Z)) in Hrest. rewrite length_skipn in Hrest. cbn in Hrest. lia. }
  cbn [map Pipeline.loop]. rewrite baseband_overrun_pass by lia.
  eexists. split; [reflexivity|]. cbn [index bitstream trace].
  split; [lia|]. split; [exact Hb|].
  rewrite flushes_app, Hf.
  destruct (Z.ltb_spec 0 (Z.of_nat capacity)); [|lia].
  rewrite Z.add_0_l, Z.eqb_refl. cbn. lia.
Qed.

End AssemblerFacts.

Section AssemblerClaims.

Import Pipeline.

Variable capacity : nat.
Variable symbols_t : Type.
Variable bytes_to_symbols : list Z -> symbols_t.
Variable symbols_to_baseband : symbols_t -> list Z.
Variable junk : nat -> Z.

Local Abbreviation iteration := (iteration capacity symbols_t bytes_to_symbols symbols_to_baseband).
Local Abbreviation loop := (loop capacity symbols_t bytes_to_symbols symbols_to_baseband).
Local Abbreviation locals := (locals capacity junk).
Local Abbreviation main := (main capacity symbols_t bytes_to_symbols symbols_to_baseband).

(** C1 (the code departs from the claim).  Baseband mode, two frames of
    bits: the loop emits one frame, not two, and ends in the store of the
    next bit outside the frame.  Bitstream mode: every bit is written to
    [cout] as it arrives, so after a frame and a part of the next one the
    part is in the output, not held back. *)
Theorem frames_emitted_for_two_frames_of_bits (B : list Z) :
  (0 < capacity)%nat -> Z.of_nat capacity < 2 ^ 64 ->
  length B = (2 * capacity)%nat ->
  (length B / capacity = 2)%nat /\
  (exists st,
      loop false (map Bit_ready B) (locals []) = (Out_of_range, st) /\
      flushes (trace st) = 1%nat) /\
  (forall B' : list Z, Z.of_nat (length B') < 2 ^ 64 ->
      exists st,
        loop true (map Bit_ready B') (locals []) = (Next, st) /\
        bytes_written (trace st) = length B').
Proof.
  intros Hpos Hcap Hlen. split; [|split].
  - rewrite Hlen. apply Nat.div_mul. lia.
  - destruct (baseband_overrun capacity symbols_t bytes_to_symbols symbols_to_baseband
                junk B [] ltac:(lia) Hcap) as (st & Hl & _ & _ & Hf).
    exists st. split; [exact Hl | exact Hf].
  - intros B' HB'.
    destruct (bitstream_run capacity symbols_t bytes_to_symbols symbols_to_baseband
                B' (locals [])) as (st & Hl & _ & _ & Hw & _).
    { cbn. lia. }
    { cbn. lia. }
    exists st. split; [exact Hl | exact Hw].
Qed.

(** C2 (the code departs from the claim).  Bitstream mode: when the cursor
    reaches the frame length it stays there (line 162 compares, it does not
    assign), and over two frames of bits the stream is flushed once, with
    the cursor at twice the frame length at the end. *)
Theorem cursor_not_reset_one_flush (B1 B2 : list Z) :
  (0 < capacity)%nat -> 2 * Z.of_nat capacity < 2 ^ 64 ->
  length B1 = capacity -> length B2 = capacity ->
  (exists st,
      loop true (map Bit_ready B1) (locals []) = (Next, st) /\
      index st = Z.of_nat capacity /\
      flushes (trace st) = 1%nat) /\
  (exists st,
      loop true (map Bit_ready (B1 ++ B2)) (locals []) = (Next, st) /\
      index st = 2 * Z.of_nat capacity /\
      flushes (trace st) = 1%nat).
Proof.
  intros Hpos Hcap H1 H2. split.
  - destruct (bitstream_run capacity symbols_t bytes_to_symbols symbols_to_baseband
                B1 (locals [])) as (st & Hl & Hi & _ & _ & Hf).
    { cbn. lia. }
    { cbn. lia. }
    exists st. split; [exact Hl|]. cbn [index trace Pipeline.locals] in Hi, Hf.
    rewrite H1 in Hi, Hf. split; [lia|]. rewrite Hf.
    destruct (Z.ltb_spec 0 (Z.of_nat capacity)); [|lia].
    destruct (Z.leb_spec (Z.of_nat capacity) (0 + Z.of_nat capacity)); [|lia].
    reflexivity.
  - destruct (bitstream_run capacity symbols_t bytes_to_symbols symbols_to_baseband
                (B1 ++ B2) (locals [])) as (st & Hl & Hi & _ & _ & Hf).
    { cbn. lia. }
    { cbn [index Pipeline.locals]. rewrite length_app. lia. }
    exists st. split; [exact Hl|]. cbn [index trace Pipeline.locals] in Hi, Hf.
    rewrite length_app, H1, H2 in Hi, Hf. split; [lia|]. rewrite Hf.
    destruct (Z.ltb_spec 0 (Z.of_nat capacity)); [|lia].
    destruct (Z.leb_spec (Z.of_nat capacity) (0 + Z.of_nat (capacity + capacity))); [|lia].
    reflexivity.
Qed.

(** C3 (the code departs from the claim).  Baseband mode, one bit more than
    a frame: the last bit meets the cursor at [capacity], and the store of
    line 168 is outside the frame of [capacity] elements. *)
Theorem store_past_the_frame (B : list Z) :
  (0 < capacity)%nat -> Z.of_nat capacity < 2 ^ 64 ->
  length B = S capacity ->
  exists st,
    loop false (map Bit_ready B) (locals []) = (Out_of_range, st) /\
    index st = Z.of_nat capacity /\
    length (bitstream st) = capacity /\
    ~ (0 <= index st < Z.of_nat (length (bitstream st))).
Proof.
  intros Hpos Hcap Hlen.
  destruct (baseband_overrun capacity symbols_t bytes_to_symbols symbols_to_baseband
              junk B [] ltac:(lia) Hcap) as (st & Hl & Hi & Hb & _).
  exists st. split; [exact Hl|]. split; [exact Hi|]. split; [exact Hb|].
  rewrite Hb, Hi. lia.
Qed.







(** C6. When [get] returns no bit after passes that all went back to the
    loop test.  With the queue closed: the pass calls [get] and
    [is_closed], writes the log line, stores false to [running] (the one
    store of the pass) and leaves the loop, whatever would have come next.
    With the queue not closed: the assertion of line 150 fails after the
    two calls and nothing is stored.  In both cases cursor and frame are
    as before the pass. *)
Theorem get_timeout_handling mode os1 os2 closed st st1 :
  loop mode os1 st = (Next, st1) ->
  exists st2,
    loop mode (os1 ++ Starved closed :: os2) st
      = (if closed then Leave else Assert_failed, st2) /\
    trace st2
      = trace st1
        ++ (if closed
            then [Queue_get None; Is_closed true;
                  Clog "bitstream queue is closed; done transmitting.";
                  Running_store false]
            else [Queue_get None; Is_closed false]) /\
    stores (trace st2) = stores (trace st1) ++ (if closed then [false] else []) /\
    index st2 = index st1 /\
    bitstream st2 = bitstream st1.
Proof.
  intros H. rewrite loop_app, H. cbn [Pipeline.loop Pipeline.iteration].
  destruct closed; unfold record; cbn [trace bitstream bits index];
    eexists; (split; [reflexivity|]); cbn [trace bitstream bits index];
    rewrite <- ?app_assoc; cbn [app]; (split; [reflexivity|]);
    (split; [|split; reflexivity]);
    unfold stores; rewrite flat_map_app; cbn; rewrite ?app_nil_r; reflexivity.
Qed.

End AssemblerClaims.

(** ** The capture thread *)

Lemma capture_loop_puts n : forall cin k sample,
  (length cin <= n)%nat ->
  exists extra,
    Capture.puts (Capture.loop (fun _ => true) k cin sample)
    = Capture.samples cin ++ [extra].
Proof.
  induction n as [|n IH]; intros cin k sample Hn.
  - destruct cin; [|cbn in Hn; lia]. exists sample. reflexivity.
  - destruct cin as [|lo [|hi rest]].
    + exists sample. reflexivity.
    + exists (Capture.first_byte lo sample). reflexivity.
    + cbn [length] in Hn.
      destruct (IH rest (S k) (Capture.of_bytes lo hi) ltac:(lia)) as (extra & He).
      exists extra. cbn [Capture.loop Capture.samples].
      unfold Capture.puts in *. cbn [flat_map app]. now rewrite He.
Qed.

(** C4 (the code departs from the claim).  With the flag left true, the
    capture thread puts every sample it read in full and then one more: the
    read that fails is followed by the [put] of line 138 before the loop
    test sees the failed stream.  On an empty input the thread puts the
    initial value 0 although nothing was read; after one full sample it
    puts that sample twice. *)
Theorem put_after_failed_read :
  (forall cin, exists extra,
      Capture.puts (Capture.thread (fun _ => true) cin)
      = Capture.samples cin ++ [extra]) /\
  Capture.puts (Capture.thread (fun _ => true) []) = [0] /\
  Capture.samples [] = [] /\
  Capture.puts (Capture.thread (fun _ => true) [52; 18]) = [4660; 4660] /\
  Capture.samples [52; 18] = [4660].
Proof.
  split; [|repeat split].
  intros cin.
  destruct (capture_loop_puts (length cin) cin 0%nat 0 ltac:(lia)) as (extra & He).
  exists extra. unfold Capture.thread, Capture.puts in *.
  cbn [flat_map app]. rewrite flat_map_app, He. cbn. now rewrite app_nil_r.
Qed.

(** ** The flag [running] *)

Section FlagFacts.

Import Flag.

Lemma step_store_true l s s' :
  step l s = Some s' -> store l = Some true ->
  l = Cap_entry /\ capture s = C_entry /\ capture s' = C_test.
Proof.
  intros Hs Hst. destruct l; try discriminate. split; [reflexivity|].
  unfold step in Hs. destruct (alive s); [|discriminate]. cbn in Hs.
  unfold capture_step in Hs. destruct (capture s); try discriminate.
  inversion Hs. split; reflexivity.
Qed.

Lemma step_running l s s' :
  step l s = Some s' -> running s' = write l (running s).
Proof.
  unfold step. destruct (alive s); [|discriminate]. cbn [negb].
  destruct (by_main l).
  - destruct (main_step l s); [|discriminate]. intros H. now inversion H.
  - destruct (by_capture l).
    + destruct (capture_step l s); [|discriminate]. intros H. now inversion H.
    + destruct (handler s); [|discriminate]. intros H. now inversion H.
Qed.

Lemma step_entered l s s' :
  step l s = Some s' -> entered s = true -> entered s' = true.
Proof.
  unfold step, entered. destruct (alive s); [|discriminate]. cbn [negb].
  destruct l; cbn [by_main by_capture];
    unfold main_step, capture_step;
    destruct (main s), (capture s), (running s), (handler s);
    try discriminate; intros H; inversion H; cbn; trivial.
Qed.

(** While the flag is true the capture thread has made its store. *)
Lemma step_true_entered l s s' :
  step l s = Some s' ->
  (running s = true -> entered s = true) ->
  running s' = true -> entered s' = true.
Proof.
  intros Hs Hinv Htrue. rewrite (step_running l s s' Hs) in Htrue.
  unfold write in Htrue. destruct (store l) as [[]|] eqn:Hst.
  - destruct (step_store_true l s s' Hs Hst) as (_ & _ & Hc).
    unfold entered. now rewrite Hc.
  - discriminate.
  - apply (step_entered l s s' Hs), Hinv, Htrue.
Qed.

Lemma exec_true_entered ls : forall s s',
  exec ls s = Some s' ->
  (running s = true -> entered s = true) ->
  running s' = true -> entered s' = true.
Proof.
  induction ls as [|l ls IH]; intros s s' He Hinv.
  - inversion He. subst. exact Hinv.
  - cbn [exec] in He. destruct (step l s) as [s1|] eqn:Hs; [|discriminate].
    apply (IH s1 s' He). apply (step_true_entered l s s1 Hs Hinv).
Qed.

Lemma exec_stays_false ls : forall s s',
  exec ls s = Some s' ->
  entered s = true -> running s = false ->
  entered s' = true /\ running s' = false.
Proof.
  induction ls as [|l ls IH]; intros s s' He Hent Hrun.
  - inversion He. subst. split; assumption.
  - cbn [exec] in He. destruct (step l s) as [s1|] eqn:Hs; [|discriminate].
    apply (IH s1 s' He).
    + apply (step_entered l s s1 Hs Hent).
    + rewrite (step_running l s s1 Hs). unfold write.
      destruct (store l) as [[]|] eqn:Hst; [|reflexivity|exact Hrun].
      destruct (step_store_true l s s1 Hs Hst) as (_ & Hc & _).
      unfold entered in Hent. rewrite Hc in Hent. discriminate.
Qed.

Lemma exec_entered ls : forall s s',
  exec ls s = Some s' -> entered s = true -> entered s' = true.
Proof.
  induction ls as [|l ls IH]; intros s s' He Hent.
  - inversion He. subst. exact Hent.
  - cbn [exec] in He. destruct (step l s) as [s1|] eqn:Hs; [|discriminate].
    apply (IH s1 s' He), (step_entered l s s1 Hs Hent).
Qed.

(** C8. In every interleaving of the main thread, the capture thread and
    the SIGINT handler from the start of the process: a step that turns
    the flag from false to true is the store of line 134, made by the
    capture thread at its entry point; and once the flag has been true and
    then is false, it is false in every later state of the run. *)
Theorem running_never_true_again :
  (forall l s s',
      step l s = Some s' -> running s = false -> running s' = true ->
      l = Cap_entry /\ by_capture l = true /\ capture s = C_entry) /\
  (forall sched1 sched2 sched3 s1 s2 s3,
      exec sched1 initial = Some s1 ->
      exec sched2 s1 = Some s2 ->
      exec sched3 s2 = Some s3 ->
      running s1 = true -> running s2 = false ->
      running s3 = false).
Proof.
  split.
  - intros l s s' Hs Hf Ht. rewrite (step_running l s s' Hs), Hf in Ht.
    unfold write in Ht. destruct (store l) as [[]|] eqn:Hst; try discriminate.
    destruct (step_store_true l s s' Hs Hst) as (Hl & Hc & _).
    subst l. repeat split. exact Hc.
  - intros sched1 sched2 sched3 s1 s2 s3 H1 H2 H3 Ht Hf.
    assert (Hent1 : entered s1 = true).
    { apply (exec_true_entered sched1 initial s1 H1); [discriminate | exact Ht]. }
    pose proof (exec_entered sched2 s1 s2 H2 Hent1) as Hent2.
    apply (exec_stays_false sched3 s2 s3 H3 Hent2 Hf).
Qed.

End FlagFacts.

(** ** The theorems at concrete runs

    Frames of two elements, converters that pass their argument on. *)

Lemma frames_emitted_for_two_frames_of_bits_witness :
  (0 < 2)%nat /\ Z.of_nat 2 < 2 ^ 64 /\ length [1; 0; 1; 1] = (2 * 2)%nat /\
  exists st,
    Pipeline.loop 2 (list Z) (fun x => x) (fun x => x) false
      (map Pipeline.Bit_ready [1; 0; 1; 1]) (Pipeline.locals 2 (fun _ => 7) [])
    = (Pipeline.Out_of_range, st) /\
    Pipeline.flushes (Pipeline.trace st) = 1%nat.
Proof.
  split; [lia|]. split; [reflexivity|]. split; [reflexivity|].
  destruct (frames_emitted_for_two_frames_of_bits 2 (list Z) (fun x => x) (fun x => x)
              (fun _ => 7) [1; 0; 1; 1] ltac:(lia) eq_refl eq_refl) as (_ & H & _).
  exact H.
Defined.

Lemma cursor_not_reset_one_flush_witness :
  (0 < 2)%nat /\ 2 * Z.of_nat 2 < 2 ^ 64 /\
  exists st,
    Pipeline.loop 2 (list Z) (fun x => x) (fun x => x) true
      (map Pipeline.Bit_ready ([1; 0] ++ [1; 1])) (Pipeline.locals 2 (fun _ => 7) [])
    = (Pipeline.Next, st) /\
    Pipeline.index st = 2 * Z.of_nat 2 /\
    Pipeline.flushes (Pipeline.trace st) = 1%nat.
Proof.
  split; [lia|]. split; [reflexivity|].
  destruct (cursor_not_reset_one_flush 2 (list Z) (fun x => x) (fun x => x)
              (fun _ => 7) [1; 0] [1; 1] ltac:(lia) eq_refl eq_refl eq_refl) as (_ & H).
  exact H.
Defined.

Lemma store_past_the_frame_witness :
  (0 < 2)%nat /\ Z.of_nat 2 < 2 ^ 64 /\ length [1; 0; 1] = 3%nat /\
  exists st,
    Pipeline.loop 2 (list Z) (fun x => x) (fun x => x) false
      (map Pipeline.Bit_ready [1; 0; 1]) (Pipeline.locals 2 (fun _ => 7) [])
    = (Pipeline.Out_of_range, st) /\
    Pipeline.index st = 2.
Proof.
  split; [lia|]. split; [reflexivity|]. split; [reflexivity|].
  destruct (store_past_the_frame 2 (list Z) (fun x => x) (fun x => x)
              (fun _ => 7) [1; 0; 1] ltac:(lia) eq_refl eq_refl) as (st & Hl & Hi & _).
  exists st. split; [exact Hl | exact Hi].
Defined.


Lemma get_timeout_handling_witness :
  let st1 := {| Pipeline.bitstream := [1; 7]; Pipeline.bits := 1; Pipeline.index := 1;
                Pipeline.trace := [Pipeline.Queue_get (Some 1)] |} in
  Pipeline.loop 2 (list Z) (fun x => x) (fun x => x) false
    [Pipeline.Bit_ready 1] (Pipeline.locals 2 (fun _ => 7) []) = (Pipeline.Next, st1) /\
  exists st2,
    Pipeline.loop 2 (list Z) (fun x => x) (fun x => x) false
      ([Pipeline.Bit_ready 1] ++ Pipeline.Starved true :: [Pipeline.Bit_ready 0])
      (Pipeline.locals 2 (fun _ => 7) [])
    = (Pipeline.Leave, st2) /\
    Pipeline.trace st2
    = [Pipeline.Queue_get (Some 1); Pipeline.Queue_get None; Pipeline.Is_closed true;
       Pipeline.Clog "bitstream queue is closed; done transmitting.";
       Pipeline.Running_store false] /\
    Pipeline.stores (Pipeline.trace st2) = [false].
Proof.
  intros st1. split; [reflexivity|].
  destruct (get_timeout_handling 2 (list Z) (fun x => x) (fun x => x) false
              [Pipeline.Bit_ready 1] [Pipeline.Bit_ready 0] true
              (Pipeline.locals 2 (fun _ => 7) []) st1 eq_refl)
    as (st2 & Hl & Ht & Hs & _).
  exists st2. split; [exact Hl|]. split; [exact Ht | exact Hs].
Defined.

Lemma running_never_true_again_witness :
  let s1 := {| Flag.running := true; Flag.main := Flag.M_spin;
               Flag.capture := Flag.C_test; Flag.handler := true |} in
  let s2 := {| Flag.running := false; Flag.main := Flag.M_spin;
               Flag.capture := Flag.C_test; Flag.handler := true |} in
  let s3 := {| Flag.running := false; Flag.main := Flag.M_spin;
               Flag.capture := Flag.C_done; Flag.handler := true |} in
  Flag.exec [Flag.Main_install; Flag.Main_spawn; Flag.Cap_entry] Flag.initial = Some s1 /\
  Flag.exec [Flag.Sigint] s1 = Some s2 /\
  Flag.exec [Flag.Main_spin; Flag.Cap_leave; Flag.Cap_exit] s2 = Some s3 /\
  Flag.running s3 = false.
Proof.
  intros s1 s2 s3. split; [reflexivity|]. split; [reflexivity|]. split; [reflexivity|].
  exact (proj2 running_never_true_again
           [Flag.Main_install; Flag.Main_spawn; Flag.Cap_entry] [Flag.Sigint]
           [Flag.Main_spin; Flag.Cap_leave; Flag.Cap_exit]
           s1 s2 s3 eq_refl eq_refl eq_refl eq_refl eq_refl).
Defined.

(** * Further properties *)

(** ** [Config::parse] *)

(** [parse] past the help and version tests, with the source given. *)
Lemma parse_validating argv0 vm src :
  Cli.vm_help vm = false -> Cli.vm_version vm = false ->
  Cli.vm_src vm = Some src ->
  exists config,
    Cli.notify vm Cli.Config_default = inr config /\
    Cli.source_address config = src /\
    Cli.destination_address config = Cli.dest_of vm /\
    Cli.parse argv0 vm =
      if Z.ltb 1 (Cli.levels vm) then
        Cli.nullopt [] [Cli.Text Cli.too_many_levels; Cli.Endl]
      else if Nat.ltb 9 (String.length src) then
        Cli.nullopt [] [Cli.Text Cli.source_too_long; Cli.Endl]
      else if Nat.ltb 9 (String.length (Cli.dest_of vm)) then
        Cli.nullopt [] [Cli.Text Cli.destination_too_long; Cli.Endl]
      else {| Cli.returned := Some config; Cli.to_cout := []; Cli.to_cerr := [] |}.
Proof.
  intros Hh Hv Hs. unfold Cli.parse, Cli.notify. rewrite Hh, Hv, Hs.
  eexists. split; [reflexivity|]. split; [reflexivity|]. split; [reflexivity|].
  reflexivity.
Qed.

(** What a returned configuration tells about the command line. *)
Lemma parse_accepted argv0 vm config :
  Cli.returned (Cli.parse argv0 vm) = Some config ->
  Cli.vm_help vm = false /\ Cli.vm_version vm = false /\ Cli.levels vm <= 1 /\
  (exists src, Cli.vm_src vm = Some src /\ (String.length src <= 9)%nat) /\
  (String.length (Cli.dest_of vm) <= 9)%nat /\
  Cli.notify vm Cli.Config_default = inr config.
Proof.
  intros H.
  destruct (Cli.vm_help vm) eqn:Hh;
    [unfold Cli.parse in H; rewrite Hh in H; discriminate|].
  destruct (Cli.vm_version vm) eqn:Hv;
    [unfold Cli.parse in H; rewrite Hh, Hv in H; discriminate|].
  destruct (Cli.vm_src vm) as [src|] eqn:Hs;
    [|unfold Cli.parse, Cli.notify in H; rewrite Hh, Hv, Hs in H; discriminate].
  destruct (parse_validating argv0 vm src Hh Hv Hs) as (c & Hn & _ & _ & Hp).
  rewrite Hp in H.
  destruct (Z.ltb_spec 1 (Cli.levels vm)); [discriminate|].
  destruct (Nat.ltb_spec 9 (String.length src)); [discriminate|].
  destruct (Nat.ltb_spec 9 (String.length (Cli.dest_of vm))); [discriminate|].
  cbn in H. inversion H. subst c.
  repeat split; try assumption; try lia. exists src. split; [reflexivity | lia].
Qed.

(** X1. [parse] returns a configuration exactly when neither help nor
    version is asked for, the source is given, at most one of the three
    verbosity switches is set, and source and destination have at most 9
    characters each; the configuration is then the one [notify] filled. *)
Theorem parse_accepts_exactly argv0 vm config :
  Cli.returned (Cli.parse argv0 vm) = Some config <->
  Cli.vm_help vm = false /\ Cli.vm_version vm = false /\ Cli.levels vm <= 1 /\
  (exists src, Cli.vm_src vm = Some src /\ (String.length src <= 9)%nat) /\
  (String.length (Cli.dest_of vm) <= 9)%nat /\
  Cli.notify vm Cli.Config_default = inr config.
Proof.
  split.
  - apply parse_accepted.
  - intros (Hh & Hv & Hl & (src & Hs & Hlen) & Hd & Hn).
    destruct (parse_validating argv0 vm src Hh Hv Hs) as (c & Hn' & _ & _ & Hp).
    rewrite Hp. rewrite Hn in Hn'. inversion Hn'. subst c.
    destruct (Z.ltb_spec 1 (Cli.levels vm)); [lia|].
    destruct (Nat.ltb_spec 9 (String.length src)); [lia|].
    destruct (Nat.ltb_spec 9 (String.length (Cli.dest_of vm))); [lia|].
    reflexivity.
Qed.

(** X2. A configuration that [parse] returns has identifiers of at most 9
    characters and at most one of [verbose], [debug], [quiet] set. *)
Theorem accepted_config_is_valid argv0 vm config :
  Cli.returned (Cli.parse argv0 vm) = Some config ->
  (String.length (Cli.source_address config) <= 9)%nat /\
  (String.length (Cli.destination_address config) <= 9)%nat /\
  Z.b2z (Cli.debug config) + Z.b2z (Cli.verbose config) + Z.b2z (Cli.quiet config) <= 1.
Proof.
  intros H.
  destruct (parse_accepted argv0 vm config H) as (_ & _ & Hl & (src & Hs & Hlen) & Hd & Hn).
  unfold Cli.notify in Hn. rewrite Hs in Hn. inversion Hn. cbn.
  split; [exact Hlen|]. split; [exact Hd|]. exact Hl.
Qed.

Lemma accepted_config_is_valid_witness :
  exists config,
    Cli.returned (Cli.parse "m17-mod" (Cli.full_line "N0CALL" "W1AW" 123)) = Some config /\
    (String.length (Cli.source_address config) <= 9)%nat /\
    Z.b2z (Cli.debug config) + Z.b2z (Cli.verbose config) + Z.b2z (Cli.quiet config) <= 1.
Proof.
  destruct (Cli.returned (Cli.parse "m17-mod" (Cli.full_line "N0CALL" "W1AW" 123)))
    as [config|] eqn:Hcfg; [|discriminate].
  exists config. split; [reflexivity|].
  destruct (accepted_config_is_valid "m17-mod" (Cli.full_line "N0CALL" "W1AW" 123)
              config Hcfg) as (Hs & _ & Hl).
  split; [exact Hs | exact Hl].
Defined.

(** X3. The version option takes effect before any validation and is
    itself overridden only by help: on every command line with version and
    without help, [cout] receives the program name, ": ", "1.0" and a line
    end, [cerr] receives nothing, no configuration is returned although
    the source may be missing or oversized and the switches may conflict,
    and [main] returns 0 with no queue made and no thread started. *)
Theorem version_precedes_validation
  capacity symbols_t (b2s : list Z -> symbols_t) (s2b : symbols_t -> list Z)
  argv0 vm env :
  Cli.vm_help vm = false -> Cli.vm_version vm = true ->
  let p := Cli.parse argv0 vm in
  let r := Pipeline.main capacity symbols_t b2s s2b argv0 vm env in
  Cli.returned p = None /\
  Cli.to_cout p = [Cli.Text argv0; Cli.Text ": "; Cli.Text "1.0"; Cli.Endl] /\
  Cli.to_cerr p = [] /\
  Pipeline.result r = Pipeline.Exit 0 /\
  Pipeline.events r = [] /\
  Pipeline.cout r = [Cli.Text argv0; Cli.Text ": "; Cli.Text "1.0"; Cli.Endl] /\
  Pipeline.cerr r = [].
Proof.
  intros Hh Hv p r.
  assert (Hp : Cli.parse argv0 vm
               = Cli.nullopt [Cli.Text argv0; Cli.Text ": "; Cli.Text Cli.VERSION; Cli.Endl] []).
  { unfold Cli.parse. now rewrite Hh, Hv. }
  subst p r. unfold Pipeline.main. rewrite Hp. cbn. repeat split.
Qed.

Lemma version_precedes_validation_witness :
  let vm := Cli.version_line "N0CALLSIGN" in
  Cli.vm_help vm = false /\ Cli.vm_version vm = true /\
  1 < Cli.levels vm /\
  Cli.returned (Cli.parse "m17-mod" vm) = None /\
  Cli.to_cout (Cli.parse "m17-mod" vm)
    = [Cli.Text "m17-mod"; Cli.Text ": "; Cli.Text "1.0"; Cli.Endl].
Proof.
  intros vm. split; [reflexivity|]. split; [reflexivity|]. split; [reflexivity|].
  destruct (version_precedes_validation 2 (list Z) (fun x => x) (fun x => x)
              "m17-mod" vm (Pipeline.seen [] Pipeline.Returns) eq_refl eq_refl)
    as (Hn & Ho & _).
  split; [exact Hn | exact Ho].
Defined.

(** X4. With the source given and neither help nor version, two or more
    verbosity switches make [parse] return [nullopt] with the one line
    "Only one of quiet, verbos or debug may be chosen." on [cerr] and
    nothing on [cout]: the conflict is reported before the identifiers are
    looked at, so an oversized source or destination on the same command
    line is not reported; [main] returns 0 with no queue made and no
    thread started. *)
Theorem verbosity_conflict_reported_first
  capacity symbols_t (b2s : list Z -> symbols_t) (s2b : symbols_t -> list Z)
  argv0 vm env src :
  Cli.vm_help vm = false -> Cli.vm_version vm = false ->
  Cli.vm_src vm = Some src ->
  1 < Cli.levels vm ->
  let p := Cli.parse argv0 vm in
  let r := Pipeline.main capacity symbols_t b2s s2b argv0 vm env in
  Cli.returned p = None /\
  Cli.to_cerr p
    = [Cli.Text "Only one of quiet, verbos or debug may be chosen."; Cli.Endl] /\
  Cli.to_cout p = [] /\
  Pipeline.result r = Pipeline.Exit 0 /\
  Pipeline.events r = [] /\
  Pipeline.cerr r
    = [Cli.Text "Only one of quiet, verbos or debug may be chosen."; Cli.Endl].
Proof.
  intros Hh Hv Hs Hl p r.
  destruct (parse_validating argv0 vm src Hh Hv Hs) as (c & _ & _ & _ & Hp).
  destruct (Z.ltb_spec 1 (Cli.levels vm)); [|lia].
  subst p r. unfold Pipeline.main. rewrite Hp. cbn. repeat split.
Qed.

Lemma verbosity_conflict_reported_first_witness :
  let vm := Cli.conflict_line "N0CALLSIGN" "DESTINATION" in
  1 < Cli.levels vm /\
  (9 < String.length "N0CALLSIGN")%nat /\
  Cli.returned (Cli.parse "m17-mod" vm) = None /\
  Cli.to_cerr (Cli.parse "m17-mod" vm)
    = [Cli.Text "Only one of quiet, verbos or debug may be chosen."; Cli.Endl].
Proof.
  intros vm. split; [reflexivity|]. split; [cbn; lia|].
  destruct (verbosity_conflict_reported_first 2 (list Z) (fun x => x) (fun x => x)
              "m17-mod" vm (Pipeline.seen [] Pipeline.Returns) "N0CALLSIGN"
              eq_refl eq_refl eq_refl eq_refl) as (Hn & He & _).
  split; [exact Hn | exact He].
Defined.

(** X5. A destination of more than 9 characters, on a command line that
    passes the earlier tests (no help, no version, at most one verbosity
    switch, a source of at most 9 characters), makes [parse] return
    [nullopt] with the one line "Destination identifier too long." on
    [cerr] and nothing on [cout], and [main] returns 0 with no queue made
    and no thread started. *)
Theorem oversized_destination_rejected
  capacity symbols_t (b2s : list Z -> symbols_t) (s2b : symbols_t -> list Z)
  argv0 vm env src dst :
  Cli.vm_help vm = false -> Cli.vm_version vm = false ->
  Cli.levels vm <= 1 ->
  Cli.vm_src vm = Some src -> (String.length src <= 9)%nat ->
  Cli.vm_dest vm = Some dst -> (9 < String.length dst)%nat ->
  let p := Cli.parse argv0 vm in
  let r := Pipeline.main capacity symbols_t b2s s2b argv0 vm env in
  Cli.returned p = None /\
  Cli.to_cerr p = [Cli.Text "Destination identifier too long."; Cli.Endl] /\
  Cli.to_cout p = [] /\
  Pipeline.result r = Pipeline.Exit 0 /\
  Pipeline.events r = [] /\
  Pipeline.cerr r = [Cli.Text "Destination identifier too long."; Cli.Endl].
Proof.
  intros Hh Hv Hl Hs Hslen Hd Hdlen p r.
  destruct (parse_validating argv0 vm src Hh Hv Hs) as (c & _ & _ & _ & Hp).
  assert (Hdst : Cli.dest_of vm = dst) by (unfold Cli.dest_of; now rewrite Hd).
  rewrite Hdst in Hp.
  destruct (Z.ltb_spec 1 (Cli.levels vm)); [lia|].
  destruct (Nat.ltb_spec 9 (String.length src)); [lia|].
  destruct (Nat.ltb_spec 9 (String.length dst)); [|lia].
  subst p r. unfold Pipeline.main. rewrite Hp. cbn. repeat split.
Qed.

Lemma oversized_destination_rejected_witness :
  let vm := Cli.full_line "N0CALL" "DESTINATION" 385 in
  let r := Pipeline.main 2 (list Z) (fun x => x) (fun x => x) "m17-mod" vm
             (Pipeline.seen [] Pipeline.Returns) in
  (9 < String.length "DESTINATION")%nat /\
  Cli.returned (Cli.parse "m17-mod" vm) = None /\
  Cli.to_cerr (Cli.parse "m17-mod" vm)
    = [Cli.Text "Destination identifier too long."; Cli.Endl] /\
  Pipeline.events r = [].
Proof.
  intros vm r. split; [cbn; lia|].
  destruct (oversized_destination_rejected 2 (list Z) (fun x => x) (fun x => x)
              "m17-mod" vm (Pipeline.seen [] Pipeline.Returns)
              "N0CALL" "DESTINATION" eq_refl eq_refl ltac:(vm_compute; discriminate)
              eq_refl ltac:(cbn; lia) eq_refl ltac:(cbn; lia)) as (Hn & He & _ & _ & Hev & _).
  split; [exact Hn|]. split; [exact He | exact Hev].
Defined.

(** X6. [parse] is never silent about a refusal and never writes on
    success: when it returns [nullopt] something was written to [cout] or
    [cerr], and when it returns a configuration both streams are
    untouched. *)
Theorem parse_writes_iff_refused argv0 vm :
  match Cli.returned (Cli.parse argv0 vm) with
  | None => Cli.to_cout (Cli.parse argv0 vm) ++ Cli.to_cerr (Cli.parse argv0 vm) <> []
  | Some _ => Cli.to_cout (Cli.parse argv0 vm) = [] /\ Cli.to_cerr (Cli.parse argv0 vm) = []
  end.
Proof.
  destruct (Cli.vm_help vm) eqn:Hh;
    [unfold Cli.parse; rewrite Hh; cbn; discriminate|].
  destruct (Cli.vm_version vm) eqn:Hv;
    [unfold Cli.parse; rewrite Hh, Hv; cbn; discriminate|].
  destruct (Cli.vm_src vm) as [src|] eqn:Hs;
    [|unfold Cli.parse, Cli.notify; rewrite Hh, Hv, Hs; cbn; discriminate].
  destruct (parse_validating argv0 vm src Hh Hv Hs) as (c & _ & _ & _ & Hp).
  rewrite Hp.
  destruct (Z.ltb 1 (Cli.levels vm)); [cbn; discriminate|].
  destruct (Nat.ltb 9 (String.length src)); [cbn; discriminate|].
  destruct (Nat.ltb 9 (String.length (Cli.dest_of vm))); [cbn; discriminate|].
  cbn. split; reflexivity.
Qed.

(** X7. In a configuration that [parse] returns, every option given on
    the command line has its value, and every option left out has its
    default: key code 385, the C-Media event device path, an empty audio
    device (standard input), an empty destination; the four switches are
    those of the command line. *)
Theorem accepted_config_values argv0 vm config :
  Cli.returned (Cli.parse argv0 vm) = Some config ->
  Cli.vm_src vm = Some (Cli.source_address config) /\
  Cli.destination_address config
    = match Cli.vm_dest vm with Some d => d | None => "" end /\
  Cli.audio_device config
    = match Cli.vm_audio vm with Some a => a | None => "" end /\
  Cli.event_device config
    = match Cli.vm_event vm with
      | Some e => e
      | None => "/dev/input/by-id/usb-C-Media_Electronics_Inc._USB_Audio_Device-event-if03"
      end /\
  Cli.key config = match Cli.vm_key vm with Some k => k | None => 385 end /\
  Cli.bitstream config = Cli.vm_bitstream vm /\
  Cli.verbose config = Cli.vm_verbose vm /\
  Cli.debug config = Cli.vm_debug vm /\
  Cli.quiet config = Cli.vm_quiet vm.
Proof.
  intros H.
  destruct (parse_accepted argv0 vm config H) as (_ & _ & _ & (src & Hs & _) & _ & Hn).
  unfold Cli.notify in Hn. rewrite Hs in Hn.
  inversion Hn. cbn. repeat split. exact Hs.
Qed.

Lemma accepted_config_values_witness :
  exists config,
    Cli.returned (Cli.parse "m17-mod" (Cli.full_line "N0CALL" "W1AW" 123)) = Some config /\
    Cli.source_address config = "N0CALL" /\
    Cli.destination_address config = "W1AW" /\
    Cli.audio_device config = "" /\
    Cli.key config = 123 /\
    Cli.bitstream config = true.
Proof.
  destruct (Cli.returned (Cli.parse "m17-mod" (Cli.full_line "N0CALL" "W1AW" 123)))
    as [config|] eqn:Hcfg; [|discriminate].
  exists config. split; [reflexivity|].
  destruct (accepted_config_values "m17-mod" (Cli.full_line "N0CALL" "W1AW" 123)
              config Hcfg) as (Hs & Hd & Ha & _ & Hk & Hb & _).
  cbn in Hs, Hd, Ha, Hk, Hb. inversion Hs.
  split; [reflexivity|]. split; [exact Hd|]. split; [exact Ha|].
  split; [exact Hk | exact Hb].
Defined.

(** ** [main]: the run as a whole *)

Section RunFacts.

Import Pipeline.

Variable capacity : nat.
Variable symbols_t : Type.
Variable bytes_to_symbols : list Z -> symbols_t.
Variable symbols_to_baseband : symbols_t -> list Z.

Local Abbreviation iteration := (iteration capacity symbols_t bytes_to_symbols symbols_to_baseband).
Local Abbreviation loop := (loop capacity symbols_t bytes_to_symbols symbols_to_baseband).
Local Abbreviation locals := (locals capacity).
Local Abbreviation main := (main capacity symbols_t bytes_to_symbols symbols_to_baseband).

Lemma loop_events_big_endian l : forallb loop_event (flat_map big_endian l) = true.
Proof. induction l as [|b l IH]; [reflexivity|]. cbn. exact IH. Qed.

(** A pass only appends to the events, and only events of the loop. *)
Lemma iteration_appends mode o st :
  exists es,
    trace (snd (iteration mode o st)) = trace st ++ es /\
    forallb loop_event es = true.
Proof.
  unfold Pipeline.iteration, record.
  destruct o as [|b|[]]; cbn [snd trace bits index bitstream].
  - exists []. now rewrite app_nil_r.
  - destruct mode.
    + destruct (_ =? _); cbn [snd trace]; unfold record; cbn [trace];
        rewrite <- ?app_assoc; eexists; (split; [reflexivity|]); reflexivity.
    + destruct (_ && _).
      * destruct (_ =? _); cbn [snd trace]; unfold record; cbn [trace];
          rewrite <- ?app_assoc; eexists; (split; [reflexivity|]);
          cbn [app forallb loop_event andb];
          rewrite ?forallb_app, ?loop_events_big_endian; reflexivity.
      * cbn [snd trace]. eexists. split; reflexivity.
  - rewrite <- app_assoc. eexists. split; reflexivity.
  - eexists. split; reflexivity.
Qed.

Lemma loop_appends mode os : forall st,
  exists es,
    trace (snd (loop mode os st)) = trace st ++ es /\
    forallb loop_event es = true.
Proof.
  induction os as [|o os IH]; intros st.
  - exists []. cbn. now rewrite app_nil_r.
  - cbn [Pipeline.loop].
    destruct (iteration_appends mode o st) as (es1 & He1 & Hl1).
    destruct (iteration mode o st) as [[] st1]; cbn [snd] in *;
      try (exists es1; split; assumption).
    destruct (IH st1) as (es2 & He2 & Hl2).
    exists (es1 ++ es2). rewrite He2, He1, <- app_assoc. split; [reflexivity|].
    rewrite forallb_app, Hl1, Hl2. reflexivity.
Qed.


Lemma loop_events_stores es :
  forallb loop_event es = true -> Forall (fun b => b = false) (stores es).
Proof.
  induction es as [|e es IH]; [constructor|].
  cbn [forallb]. intros H. apply andb_true_iff in H. destruct H as (He & Hes).
  specialize (IH Hes). unfold stores in *.
  destruct e; try discriminate; cbn [flat_map app]; try exact IH.
  constructor; [|exact IH]. destruct b; [discriminate | reflexivity].
Qed.



Lemma stores_app es1 es2 : stores (es1 ++ es2) = stores es1 ++ stores es2.
Proof. unfold stores. apply flat_map_app. Qed.

Lemma teardown_to_keys c :
  key_downs (teardown_to c) = 0%nat /\ key_ups (teardown_to c) = 1%nat /\
  stores (teardown_to c) = [false].
Proof. destruct c; repeat split. Qed.

(** X8. Once the configuration is accepted, every run begins with the same
    eight steps whatever happens later: the SIGINT handler is installed,
    the two queues are made, the modulator is built from the source and
    destination of the configuration and started, the key line goes down,
    the banner is written to [cerr], and only then the capture thread is
    created. *)
Theorem startup_comes_first argv0 vm env config :
  Cli.returned (Cli.parse argv0 vm) = Some config ->
  exists rest,
    events (main argv0 vm env)
    = [Signal_install; New_audio_queue; New_bitstream_queue;
       New_modulator (Cli.source_address config) (Cli.destination_address config);
       Modulator_run; Ptt_on; Cerr "m17-mod running. ctrl-D to break.";
       Thread_start] ++ rest.
Proof.
  intros Hcfg. unfold Pipeline.main. rewrite Hcfg.
  destruct (started env); [|exists []; cbn; reflexivity].
  destruct (loop_appends (Cli.bitstream config) (passes env)
              (locals (storage env) (startup config))) as (es & He & _).
  destruct (loop (Cli.bitstream config) (passes env)
              (locals (storage env) (startup config))) as [[] st];
    cbn [snd] in He; try destruct (ending env);
    cbn [events]; rewrite He; cbn [trace Pipeline.locals];
    rewrite <- ?app_assoc; unfold startup; cbn [app]; eexists; reflexivity.
Qed.


(** X10. The main thread never stores [true] to the flag: every store to
    [running] in the events of a run of [main] stores [false]. *)
Theorem main_stores_only_false argv0 vm env :
  Forall (fun b => b = false) (stores (events (main argv0 vm env))).
Proof.
  unfold Pipeline.main.
  destruct (Cli.returned (Cli.parse argv0 vm)) as [config|]; [|constructor].
  destruct (started env); [|cbn; constructor].
  destruct (loop_appends (Cli.bitstream config) (passes env)
              (locals (storage env) (startup config))) as (es & He & Hl).
  pose proof (loop_events_stores es Hl) as Hs.
  destruct (loop (Cli.bitstream config) (passes env)
              (locals (storage env) (startup config))) as [[] st];
    cbn [snd] in He; try destruct (ending env) as [|k|k];
    cbn [events]; rewrite He; cbn [trace Pipeline.locals];
    rewrite ?stores_app;
    try (destruct (teardown_to_keys k) as (_ & _ & Hk); rewrite Hk);
    cbn [stores startup teardown flat_map app];
    rewrite ?app_nil_r; try exact Hs;
    apply Forall_app; (split; [exact Hs|]); repeat constructor.
Qed.

(** X11. [main] has no failure exit code: whenever it returns, after a
    refused command line as after a complete run, the code is 0. *)
Theorem exit_code_always_zero argv0 vm env code :
  result (main argv0 vm env) = Exit code -> code = 0.
Proof.
  unfold Pipeline.main.
  destruct (Cli.returned (Cli.parse argv0 vm)) as [config|];
    [|cbn; intros H; now inversion H].
  destruct (started env); [|discriminate].
  destruct (loop (Cli.bitstream config) (passes env)
              (locals (storage env) (startup config))) as [[] st];
    try destruct (ending env); cbn [result]; try discriminate.
  intros H. now inversion H.
Qed.

End RunFacts.

Lemma startup_comes_first_witness :
  exists rest,
    Pipeline.events
      (Pipeline.main 2 (list Z) (fun x => x) (fun x => x) "m17-mod"
         (Cli.only_src "N0CALL")
         (Pipeline.seen [Pipeline.Bit_ready 1; Pipeline.Starved false] Pipeline.Returns))
    = [Pipeline.Signal_install; Pipeline.New_audio_queue; Pipeline.New_bitstream_queue;
       Pipeline.New_modulator "N0CALL" ""; Pipeline.Modulator_run; Pipeline.Ptt_on;
       Pipeline.Cerr "m17-mod running. ctrl-D to break."; Pipeline.Thread_start] ++ rest.
Proof.
  destruct (Cli.returned (Cli.parse "m17-mod" (Cli.only_src "N0CALL")))
    as [config|] eqn:Hcfg; [|discriminate].
  pose proof (startup_comes_first 2 (list Z) (fun x => x) (fun x => x) "m17-mod"
                (Cli.only_src "N0CALL")
                (Pipeline.seen [Pipeline.Bit_ready 1; Pipeline.Starved false]
                   Pipeline.Returns)
                config Hcfg) as H.
  inversion Hcfg. subst config. exact H.
Defined.


Lemma exit_code_always_zero_witness :
  Pipeline.result
    (Pipeline.main 2 (list Z) (fun x => x) (fun x => x) "m17-mod"
       (Cli.only_src "N0CALL")
       (Pipeline.seen [Pipeline.Bit_ready 1; Pipeline.Flag_down] Pipeline.Returns))
  = Pipeline.Exit Pipeline.EXIT_SUCCESS /\
  Pipeline.EXIT_SUCCESS = 0.
Proof.
  split; [reflexivity|].
  exact (exit_code_always_zero 2 (list Z) (fun x => x) (fun x => x) "m17-mod"
           (Cli.only_src "N0CALL")
           (Pipeline.seen [Pipeline.Bit_ready 1; Pipeline.Flag_down] Pipeline.Returns)
           Pipeline.EXIT_SUCCESS eq_refl).
Defined.

(** ** The frame assembler: what reaches [std::cout] *)

Section OutputFacts.

Import Pipeline.

Variable capacity : nat.
Variable symbols_t : Type.
Variable bytes_to_symbols : list Z -> symbols_t.
Variable symbols_to_baseband : symbols_t -> list Z.
Variable junk : nat -> Z.

Local Abbreviation iteration := (iteration capacity symbols_t bytes_to_symbols symbols_to_baseband).
Local Abbreviation loop := (loop capacity symbols_t bytes_to_symbols symbols_to_baseband).
Local Abbreviation locals := (locals capacity junk).

Lemma written_app es1 es2 : written (es1 ++ es2) = written es1 ++ written es2.
Proof. unfold written. apply flat_map_app. Qed.

Lemma bitstream_pass_written b st :
  exists st1,
    iteration true (Bit_ready b) st = (Next, st1) /\
    written (trace st1) = written (trace st) ++ [b] /\
    bitstream st1 = bitstream st.
Proof.
  unfold Pipeline.iteration. cbn [index bits bitstream trace].
  destruct (_ =? _); eexists; (split; [reflexivity|]);
    unfold record; cbn [index bits bitstream trace];
    rewrite ?written_app; cbn; rewrite ?app_nil_r; split; reflexivity.
Qed.

Lemma bitstream_run_written B : forall st,
  exists st1,
    loop true (map Bit_ready B) st = (Next, st1) /\
    written (trace st1) = written (trace st) ++ B /\
    bitstream st1 = bitstream st.
Proof.
  induction B as [|b B IH]; intros st.
  - exists st. cbn. rewrite app_nil_r. repeat split.
  - destruct (bitstream_pass_written b st) as (st1 & Hit & Hw & Hb).
    destruct (IH st1) as (st2 & Hl & Hw2 & Hb2).
    exists st2. cbn [map Pipeline.loop]. rewrite Hit, Hl.
    split; [reflexivity|]. rewrite Hw2, Hw, Hb2, Hb, <- app_assoc. split; reflexivity.
Qed.

(** X13. Bitstream mode is a pass-through: for every sequence of bits that
    the queue delivers, the bytes written to [std::cout] are these bits, in
    the order of arrival, each written in the pass that received it; the
    loop goes on, and the frame array is never written: it holds what it
    held when the loop began. *)
Theorem bitstream_mode_passes_bits_through (B : list Z) :
  exists st,
    loop true (map Bit_ready B) (locals []) = (Next, st) /\
    written (trace st) = B /\
    bitstream st = map junk (seq 0 capacity).
Proof.
  destruct (bitstream_run_written B (locals [])) as (st & Hl & Hw & Hb).
  exists st. split; [exact Hl|]. split; [exact Hw | exact Hb].
Qed.

(** One bit stored in baseband mode, with the frame filled up to the
    cursor by [pre] and holding [post] from the cursor on. *)
Lemma baseband_store b st pre post :
  index st = Z.of_nat (length pre) ->
  bitstream st = pre ++ post ->
  (length pre + length post = capacity)%nat ->
  (length pre < capacity)%nat -> Z.of_nat capacity < 2 ^ 64 ->
  exists st1,
    iteration false (Bit_ready b) st = (Next, st1) /\
    index st1 = Z.of_nat (length (pre ++ [b])) /\
    bitstream st1 = (pre ++ [b]) ++ drop 1 post /\
    trace st1
    = trace st ++ Queue_get (Some b)
        :: (if (S (length pre) =? capacity)%nat
            then flat_map big_endian
                   (symbols_to_baseband (bytes_to_symbols (bitstream st1)))
                 ++ [Cout_flush]
            else []).
Proof.
  intros Hi Hb Hlen Hlt Hcap.
  assert (Hins : <[Z.to_nat (index st) := b]> (bitstream st)
                 = (pre ++ [b]) ++ drop 1 post).
  { rewrite Hi, Nat2Z.id, Hb, insert_app_r_alt by lia.
    rewrite Nat.sub_diag. destruct post as [|x post]; [cbn in Hlen; lia|].
    cbn. now rewrite <- app_assoc. }
  unfold Pipeline.iteration. cbn [index bits bitstream trace].
  destruct (Z.leb_spec 0 (index st)); [|lia].
  destruct (Z.ltb_spec (index st) (Z.of_nat capacity)); [|lia].
  cbn [andb]. rewrite size_t_small by lia. rewrite Hins.
  rewrite length_app. cbn [length].
  destruct (Nat.eqb_spec (S (length pre)) capacity) as [He|Hne].
  - destruct (Z.eqb_spec (index st + 1) (Z.of_nat capacity)); [|lia].
    eexists. split; [reflexivity|]. unfold record. cbn [index bits bitstream trace].
    split; [lia|]. split; [reflexivity|]. now rewrite <- app_assoc.
  - destruct (Z.eqb_spec (index st + 1) (Z.of_nat capacity)); [lia|].
    eexists. split; [reflexivity|]. cbn [index bits bitstream trace].
    split; [lia|]. split; reflexivity.
Qed.

(** Bits that do not complete the frame. *)
Lemma baseband_fill B : forall st pre post,
  index st = Z.of_nat (length pre) ->
  bitstream st = pre ++ post ->
  (length pre + length post = capacity)%nat ->
  (length pre + length B < capacity)%nat -> Z.of_nat capacity < 2 ^ 64 ->
  exists st1,
    loop false (map Bit_ready B) st = (Next, st1) /\
    index st1 = Z.of_nat (length (pre ++ B)) /\
    bitstream st1 = (pre ++ B) ++ drop (length B) post /\
    trace st1 = trace st ++ map (fun b => Queue_get (Some b)) B.
Proof.
  induction B as [|b B IH]; intros st pre post Hi Hb Hlen Hlt Hcap.
  - exists st. cbn [map Pipeline.loop length]. rewrite drop_0, !app_nil_r.
    repeat split; assumption.
  - cbn [length] in Hlt.
    destruct (baseband_store b st pre post Hi Hb Hlen ltac:(lia) Hcap)
      as (st1 & Hit & Hi1 & Hb1 & Ht1).
    destruct (Nat.eqb_spec (S (length pre)) capacity) as [He|_]; [lia|].
    destruct (IH st1 (pre ++ [b]) (drop 1 post) Hi1 Hb1) as (st2 & Hl & Hi2 & Hb2 & Ht2).
    { rewrite length_app, length_drop. cbn [length]. lia. }
    { rewrite length_app. cbn [length]. lia. }
    { exact Hcap. }
    exists st2. cbn [map Pipeline.loop length]. rewrite Hit, Hl.
    assert (Hcons : (pre ++ [b]) ++ B = pre ++ b :: B)
      by (rewrite <- app_assoc; reflexivity).
    rewrite Hcons, drop_drop in Hb2. rewrite Hcons in Hi2.
    split; [reflexivity|]. split; [exact Hi2|].
    split; [rewrite Hb2; do 2 f_equal; lia|].
    rewrite Ht2, Ht1, <- app_assoc. reflexivity.
Qed.

(** X14. Baseband mode writes nothing while the frame is incomplete: after
    fewer bits than a frame holds, the events of the loop are the [get]
    calls alone (no byte written, no flush), the cursor is the number of
    bits, and the frame array holds the bits in order at its front while
    every element behind them still holds what it held when the loop began
    (the array has no initialiser). *)
Theorem baseband_silent_until_full (B : list Z) :
  (length B < capacity)%nat -> Z.of_nat capacity < 2 ^ 64 ->
  exists st,
    loop false (map Bit_ready B) (locals []) = (Next, st) /\
    trace st = map (fun b => Queue_get (Some b)) B /\
    written (trace st) = [] /\
    flushes (trace st) = 0%nat /\
    index st = Z.of_nat (length B) /\
    bitstream st = B ++ map junk (seq (length B) (capacity - length B)).
Proof.
  intros Hlt Hcap.
  destruct (baseband_fill B (locals []) [] (map junk (seq 0 capacity)))
    as (st & Hl & Hi & Hb & Ht).
  { reflexivity. }
  { reflexivity. }
  { cbn. now rewrite length_map, length_seq. }
  { cbn. lia. }
  { exact Hcap. }
  cbn [app trace Pipeline.locals] in Hi, Hb, Ht.
  exists st. split; [exact Hl|]. split; [exact Ht|]. rewrite Ht.
  split; [|split; [|split; [exact Hi|]]].
  - clear. induction B as [|b B IH]; [reflexivity | exact IH].
  - clear. induction B as [|b B IH]; [reflexivity | exact IH].
  - rewrite Hb. f_equal.
    replace capacity with (length B + (capacity - length B))%nat at 1 by lia.
    rewrite seq_app, map_app, drop_app_length'; [reflexivity|].
    now rewrite length_map, length_seq.
Qed.

(** X15. The first frame in baseband mode: after exactly one frame of bits
    the frame array holds these bits in order of arrival, the converters
    are applied to that array, and the events of the loop are the [get]
    calls followed by the two bytes of every baseband sample, high byte
    first, in sample order, and one flush at the end. *)
Theorem baseband_first_frame (B : list Z) :
  (0 < capacity)%nat -> Z.of_nat capacity < 2 ^ 64 ->
  length B = capacity ->
  exists st,
    loop false (map Bit_ready B) (locals []) = (Next, st) /\
    bitstream st = B /\
    trace st
    = map (fun b => Queue_get (Some b)) B
      ++ flat_map big_endian (symbols_to_baseband (bytes_to_symbols B))
      ++ [Cout_flush].
Proof.
  intros Hpos Hcap Hlen.
  destruct (exists_last (l := B)) as (B0 & b & HB).
  { intros ->. cbn in Hlen. lia. }
  subst B. rewrite length_app in Hlen. cbn [length] in Hlen.
  destruct (baseband_fill B0 (locals []) [] (map junk (seq 0 capacity)))
    as (st0 & Hl0 & Hi0 & Hb0 & Ht0).
  { reflexivity. }
  { reflexivity. }
  { cbn. now rewrite length_map, length_seq. }
  { cbn. lia. }
  { exact Hcap. }
  cbn [app trace Pipeline.locals] in Hi0, Hb0, Ht0.
  destruct (baseband_store b st0 B0 (drop (length B0) (map junk (seq 0 capacity)))
              Hi0 Hb0) as (st & Hit & Hi & Hb & Ht).
  { rewrite length_drop, length_map, length_seq. lia. }
  { lia. }
  { exact Hcap. }
  destruct (Nat.eqb_spec (S (length B0)) capacity) as [_|Hne]; [|lia].
  assert (Hfull : bitstream st = B0 ++ [b]).
  { rewrite Hb, drop_drop, drop_ge; [now rewrite app_nil_r|].
    rewrite length_map, length_seq. lia. }
  exists st. rewrite map_app, loop_app, Hl0. cbn [map Pipeline.loop]. rewrite Hit.
  split; [reflexivity|]. split; [exact Hfull|].
  rewrite Ht, Ht0, Hfull, map_app. cbn [map]. rewrite <- !app_assoc. reflexivity.
Qed.

End OutputFacts.

(** X16. The two bytes written for a baseband sample are its 16-bit
    two's-complement pattern, high byte first: each is a byte, together
    they spell the sample modulo 65536, and read back as a signed 16-bit
    number they give the sample again when it is in the [int16_t] range. *)
Theorem big_endian_round_trip (b : Z) :
  exists hi lo,
    Pipeline.big_endian b = [Pipeline.Cout_byte hi; Pipeline.Cout_byte lo] /\
    0 <= hi < 256 /\ 0 <= lo < 256 /\
    Pipeline.of_big_endian hi lo = b mod 65536 /\
    (-32768 <= b < 32768 -> Capture.int16_t (Pipeline.of_big_endian hi lo) = b).
Proof.
  assert (Hlo : Z.land b 255 = b mod 256).
  { change 255 with (Z.ones 8). rewrite Z.land_ones by lia. reflexivity. }
  assert (Hhi : Z.shiftr (Z.land b 65280) 8 = (b / 256) mod 256).
  { rewrite Z.shiftr_land. change (Z.shiftr 65280 8) with (Z.ones 8).
    rewrite Z.land_ones, Z.shiftr_div_pow2 by lia. reflexivity. }
  exists ((b / 256) mod 256), (b mod 256).
  unfold Pipeline.big_endian, Pipeline.uint8_t, Pipeline.of_big_endian, Capture.int16_t.
  rewrite Hlo, Hhi, !Z.mod_mod by lia.
  split; [reflexivity|].
  split; [apply Z.mod_pos_bound; lia|]. split; [apply Z.mod_pos_bound; lia|].
  assert (Hsplit : b mod 65536 = 256 * ((b / 256) mod 256) + b mod 256).
  { change 65536 with (256 * 256). rewrite Z.rem_mul_r by lia. lia. }
  split; [lia|]. intros Hr. rewrite <- Hsplit.
  Z.div_mod_to_equations. lia.
Qed.

Lemma baseband_silent_until_full_witness :
  (length [1; 0] < 3)%nat /\ Z.of_nat 3 < 2 ^ 64 /\
  exists st,
    Pipeline.loop 3 (list Z) (fun x => x) (fun x => x) false
      (map Pipeline.Bit_ready [1; 0]) (Pipeline.locals 3 (fun i => Z.of_nat i + 40) [])
    = (Pipeline.Next, st) /\
    Pipeline.written (Pipeline.trace st) = [] /\
    Pipeline.bitstream st = [1; 0; 42].
Proof.
  split; [cbn; lia|]. split; [reflexivity|].
  destruct (baseband_silent_until_full 3 (list Z) (fun x => x) (fun x => x)
              (fun i => Z.of_nat i + 40) [1; 0]
              ltac:(cbn; lia) eq_refl) as (st & Hl & _ & Hw & _ & _ & Hb).
  exists st. split; [exact Hl|]. split; [exact Hw | exact Hb].
Defined.

Lemma baseband_first_frame_witness :
  (0 < 2)%nat /\ Z.of_nat 2 < 2 ^ 64 /\ length [1; 0] = 2%nat /\
  exists st,
    Pipeline.loop 2 (list Z) (fun _ => [258; -2]) (fun x => x) false
      (map Pipeline.Bit_ready [1; 0]) (Pipeline.locals 2 (fun _ => 7) [])
    = (Pipeline.Next, st) /\
    Pipeline.bitstream st = [1; 0] /\
    Pipeline.written (Pipeline.trace st) = [1; 2; 255; 254].
Proof.
  split; [lia|]. split; [reflexivity|]. split; [reflexivity|].
  destruct (baseband_first_frame 2 (list Z) (fun _ => [258; -2]) (fun x => x)
              (fun _ => 7) [1; 0] ltac:(lia) eq_refl eq_refl) as (st & Hl & Hb & Ht).
  exists st. split; [exact Hl|]. split; [exact Hb|]. rewrite Ht. reflexivity.
Defined.

(** ** The capture thread: what it puts *)

Lemma capture_loop_cut running_at n : forall cin k sample,
  (forall j, (j < n)%nat -> running_at (k + j)%nat = true) ->
  running_at (k + n)%nat = false ->
  (n <= length (Capture.samples cin))%nat ->
  Capture.puts (Capture.loop running_at k cin sample) = firstn n (Capture.samples cin).
Proof.
  induction n as [|n IH]; intros cin k sample Hup Hdown Hn.
  - rewrite Nat.add_0_r in Hdown.
    destruct cin as [|lo [|hi rest]]; cbn [Capture.loop]; rewrite Hdown; reflexivity.
  - assert (H0 : running_at k = true)
      by (rewrite <- (Nat.add_0_r k); apply Hup; lia).
    destruct cin as [|lo [|hi rest]]; cbn [Capture.samples length] in Hn; try lia.
    cbn [Capture.loop Capture.samples firstn]. rewrite H0.
    unfold Capture.puts in *. cbn [flat_map app]. f_equal.
    apply IH.
    + intros j Hj. replace (S k + j)%nat with (k + S j)%nat by lia. apply Hup. lia.
    + replace (S k + n)%nat with (k + S n)%nat by lia. exact Hdown.
    + lia.
Qed.

(** X17. When the flag is read true at the first [n] loop tests and false
    at the next one, and the input still holds [n] full samples, the
    capture thread puts exactly the first [n] samples of the input, in
    order, and nothing else: a cleared flag ends the thread without a
    stale put. *)
Theorem cleared_flag_cuts_cleanly running_at n cin :
  (forall j, (j < n)%nat -> running_at j = true) ->
  running_at n = false ->
  (n <= length (Capture.samples cin))%nat ->
  Capture.puts (Capture.thread running_at cin) = firstn n (Capture.samples cin).
Proof.
  intros Hup Hdown Hn. unfold Capture.thread.
  pose proof (capture_loop_cut running_at n cin 0%nat 0 Hup Hdown Hn) as H.
  unfold Capture.puts in *. cbn [flat_map app]. rewrite flat_map_app, H.
  cbn. now rewrite app_nil_r.
Qed.

Lemma cleared_flag_cuts_cleanly_witness :
  Capture.puts (Capture.thread (fun k => Nat.ltb k 1) [52; 18; 1; 0; 7])
  = firstn 1 (Capture.samples [52; 18; 1; 0; 7]).
Proof.
  apply (cleared_flag_cuts_cleanly (fun k => Nat.ltb k 1) 1 [52; 18; 1; 0; 7]).
  - intros j Hj. destruct j; [reflexivity | lia].
  - reflexivity.
  - cbn. lia.
Defined.

(** X18. Two bytes read in full give a sample in the [int16_t] range whose
    low byte is the first byte read and whose high byte is the second: the
    input is taken as little-endian two's complement. *)
Theorem sample_of_two_bytes lo hi :
  0 <= lo < 256 -> 0 <= hi < 256 ->
  -32768 <= Capture.of_bytes lo hi < 32768 /\
  Capture.of_bytes lo hi mod 256 = lo /\
  (Capture.of_bytes lo hi mod 65536) / 256 = hi /\
  (hi < 128 -> Capture.of_bytes lo hi = lo + 256 * hi) /\
  (128 <= hi -> Capture.of_bytes lo hi = lo + 256 * hi - 65536).
Proof.
  intros Hlo Hhi. unfold Capture.of_bytes, Capture.int16_t.
  Z.div_mod_to_equations. lia.
Qed.

Lemma sample_of_two_bytes_witness :
  Capture.of_bytes 254 255 = -2 /\ Capture.of_bytes 254 255 mod 256 = 254.
Proof.
  destruct (sample_of_two_bytes 254 255 ltac:(lia) ltac:(lia)) as (_ & Hl & _ & _ & Hneg).
  split; [exact (Hneg ltac:(lia)) | exact Hl].
Defined.

(** X19. A read that gets a single byte changes the first (low) byte of
    [sample] to that byte and leaves its second (high) byte as it was, so
    the sample put after it mixes the new byte with the previous sample. *)
Theorem short_read_keeps_high_byte lo sample :
  0 <= lo < 256 -> -32768 <= sample < 32768 ->
  -32768 <= Capture.first_byte lo sample < 32768 /\
  Capture.first_byte lo sample mod 256 = lo /\
  (Capture.first_byte lo sample mod 65536) / 256 = (sample mod 65536) / 256.
Proof.
  intros Hlo Hs. unfold Capture.first_byte, Capture.of_bytes, Capture.int16_t.
  Z.div_mod_to_equations. lia.
Qed.

Lemma short_read_keeps_high_byte_witness :
  Capture.first_byte 255 4660 = 4863 /\
  (Capture.first_byte 255 4660 mod 65536) / 256 = (4660 mod 65536) / 256.
Proof.
  split; [reflexivity|].
  exact (proj2 (proj2 (short_read_keeps_high_byte 255 4660 ltac:(lia) ltac:(lia)))).
Defined.

Lemma last_cons_default (x d : Z) l : List.last (x :: l) d = List.last l x.
Proof.
  revert x d. induction l as [|y l IH]; intros x d; [reflexivity|].
  change (List.last (x :: y :: l) d) with (List.last (y :: l) d).
  rewrite (IH y d), (IH y x). reflexivity.
Qed.

Lemma capture_loop_stale n : forall cin k sample,
  (length cin <= n)%nat ->
  Capture.puts (Capture.loop (fun _ => true) k cin sample)
  = Capture.samples cin
    ++ [if Nat.even (length cin) then List.last (Capture.samples cin) sample
        else Capture.first_byte (List.last cin 0) (List.last (Capture.samples cin) sample)].
Proof.
  induction n as [|n IH]; intros cin k sample Hn.
  - destruct cin; [reflexivity | cbn in Hn; lia].
  - destruct cin as [|lo [|hi rest]]; [reflexivity | reflexivity |].
    cbn [length] in Hn.
    specialize (IH rest (S k) (Capture.of_bytes lo hi) ltac:(lia)).
    cbn [Capture.loop Capture.samples]. unfold Capture.puts in *.
    cbn [flat_map app]. rewrite IH. cbn [length Nat.even].
    rewrite last_cons_default.
    destruct rest as [|x rest']; [reflexivity|].
    change (List.last (lo :: hi :: x :: rest') 0) with (List.last (x :: rest') 0).
    reflexivity.
Qed.

(** X20. With the flag left true, the one put that follows the failed read
    carries: after an input of whole samples, the last sample once more
    (0 when the input is empty); after an input that ends in a single byte,
    the last full sample (or 0) with its low byte replaced by that byte. *)
Theorem stale_put_value cin :
  Capture.puts (Capture.thread (fun _ => true) cin)
  = Capture.samples cin
    ++ [if Nat.even (length cin) then List.last (Capture.samples cin) 0
        else Capture.first_byte (List.last cin 0) (List.last (Capture.samples cin) 0)].
Proof.
  unfold Capture.thread.
  pose proof (capture_loop_stale (length cin) cin 0%nat 0 ltac:(lia)) as H.
  unfold Capture.puts in *. cbn [flat_map app]. rewrite flat_map_app, H.
  cbn. now rewrite app_nil_r.
Qed.

(** ** The flag and the three agents: invariants of every interleaving *)

Section InterleavingFacts.

Import Flag.

(** Checked on every state and every label. *)
Lemma step_coherent_all l s :
  match step l s with
  | Some s' => implb (coherent s) (coherent s')
  | None => true
  end = true.
Proof. destruct s as [[] m c []]; destruct l, m, c; reflexivity. Qed.

Lemma step_coherent l s s' :
  step l s = Some s' -> coherent s = true -> coherent s' = true.
Proof.
  intros Hs Hc. pose proof (step_coherent_all l s) as H.
  rewrite Hs, Hc in H. exact H.
Qed.

Lemma exec_coherent ls : forall s s',
  exec ls s = Some s' -> coherent s = true -> coherent s' = true.
Proof.
  induction ls as [|l ls IH]; intros s s' He Hc.
  - inversion He. subst. exact Hc.
  - cbn [exec] in He. destruct (step l s) as [s1|] eqn:Hs; [|discriminate].
    apply (IH s1 s' He), (step_coherent l s s1 Hs Hc).
Qed.

Lemma reachable_coherent ls s : exec ls initial = Some s -> coherent s = true.
Proof. intros He. apply (exec_coherent ls initial s He). reflexivity. Qed.

(** X21. In every interleaving, when the main thread is past the wait of
    line 143 (in its loop or in the teardown), the capture thread has
    already made its store of [true] at line 134: the main loop never
    starts before the capture thread has. *)
Theorem main_loop_after_capture_entry ls s :
  exec ls initial = Some s -> past_spin s = true -> entered s = true.
Proof.
  intros He Hp. pose proof (reachable_coherent ls s He) as Hc.
  destruct s as [r m c h]. unfold coherent, past_spin, entered in *.
  cbn [running main capture handler] in *.
  destruct m; try discriminate; destruct c, r, h; cbn in *; congruence.
Qed.

Lemma main_loop_after_capture_entry_witness :
  let s := {| running := true; main := M_get; capture := C_test; handler := true |} in
  exec [Main_install; Main_spawn; Cap_entry; Main_go; Main_enter] initial = Some s /\
  past_spin s = true /\ entered s = true.
Proof.
  intros s. split; [reflexivity|]. split; [reflexivity|].
  exact (main_loop_after_capture_entry
           [Main_install; Main_spawn; Cap_entry; Main_go; Main_enter] s eq_refl eq_refl).
Defined.

(** X22. In every interleaving, from the join of line 183 on the flag is
    false and stays false, and when the main thread closes the audio queue
    (lines 184-188) the capture thread has finished: no [put] can meet the
    closed queue. *)
Theorem capture_finished_before_close ls s :
  exec ls initial = Some s ->
  (main s = M_join \/ main s = M_close -> running s = false) /\
  (main s = M_close -> capture s = C_done).
Proof.
  intros He. pose proof (reachable_coherent ls s He) as Hc.
  destruct s as [r m c h]. unfold coherent, entered in Hc.
  cbn [running main capture handler] in *.
  split.
  - intros [Hm|Hm]; subst m; destruct c, r, h; cbn in *; congruence.
  - intros Hm. subst m. destruct c, r, h; cbn in *; congruence.
Qed.

Lemma capture_finished_before_close_witness :
  let s := {| running := false; main := M_close; capture := C_done; handler := true |} in
  exec [Main_install; Main_spawn; Cap_entry; Main_go; Main_enter; Main_get_closed;
        Cap_leave; Main_clear; Cap_exit; Main_join] initial = Some s /\
  capture s = C_done /\ running s = false.
Proof.
  intros s. split; [reflexivity|].
  destruct (capture_finished_before_close
              [Main_install; Main_spawn; Cap_entry; Main_go; Main_enter; Main_get_closed;
               Cap_leave; Main_clear; Cap_exit; Main_join] s eq_refl) as (Hr & Hc).
  split; [exact (Hc eq_refl) | exact (Hr (or_intror eq_refl))].
Defined.

(** X23. In every interleaving the SIGINT handler is installed before the
    capture thread exists: whenever the capture thread has been created,
    an interrupt is taken by [signal_handler]. *)
Theorem handler_installed_before_capture ls s :
  exec ls initial = Some s -> capture s <> C_unborn -> handler s = true.
Proof.
  intros He Hb. pose proof (reachable_coherent ls s He) as Hc.
  destruct s as [r m c h]. unfold coherent, entered in Hc.
  cbn [running main capture handler] in *.
  destruct m, c, r, h; cbn in *; congruence.
Qed.

Lemma handler_installed_before_capture_witness :
  let s := {| running := false; main := M_spin; capture := C_entry; handler := true |} in
  exec [Main_install; Main_spawn] initial = Some s /\
  capture s <> C_unborn /\ handler s = true.
Proof.
  intros s. split; [reflexivity|]. split; [discriminate|].
  apply (handler_installed_before_capture [Main_install; Main_spawn] s eq_refl).
  discriminate.
Defined.

Lemma step_stuck_spinning l s s' :
  main s = M_spin -> capture s = C_done -> running s = false ->
  step l s = Some s' -> s' = s.
Proof.
  destruct s as [r m c h]. cbn [running main capture handler].
  intros -> -> ->. unfold step, alive. cbn [running main capture handler negb].
  destruct l; cbn [by_main by_capture]; unfold main_step, capture_step, write;
    cbn [running main capture handler store]; try discriminate;
    destruct h; try discriminate; intros H; inversion H; reflexivity.
Qed.

(** X24. If the capture thread has come and gone (end of input, or an
    interrupt) while the main thread is still at the wait of line 143 with
    the flag false, the main thread waits there for ever: no step of any
    agent changes the state again, so the loop and the teardown are never
    reached and the key line stays down. *)
Theorem wait_for_start_can_hang ls s s' :
  main s = M_spin -> capture s = C_done -> running s = false ->
  exec ls s = Some s' -> s' = s.
Proof.
  intros Hm Hc Hr. revert s' . induction ls as [|l ls IH]; intros s' He.
  - now inversion He.
  - cbn [exec] in He. destruct (step l s) as [s1|] eqn:Hs; [|discriminate].
    rewrite (step_stuck_spinning l s s1 Hm Hc Hr Hs) in He. apply IH, He.
Qed.

Lemma wait_for_start_can_hang_witness :
  let s := {| running := false; main := M_spin; capture := C_done; handler := true |} in
  exec [Main_install; Main_spawn; Cap_entry; Cap_enter; Cap_read; Cap_put;
        Cap_leave; Cap_exit] initial = Some s /\
  match exec [Main_spin; Sigint; Main_spin] s with
  | Some s' => s' = s
  | None => False
  end.
Proof.
  intros s. split; [reflexivity|].
  destruct (exec [Main_spin; Sigint; Main_spin] s) as [s'|] eqn:He.
  - exact (wait_for_start_can_hang [Main_spin; Sigint; Main_spin] s s'
             eq_refl eq_refl eq_refl He).
  - discriminate He.
Defined.

(** Checked on every state and every label. *)
Lemma step_true_store_all l s :
  match step l s with
  | Some s' =>
      match store l with
      | Some true => negb (entered s) && entered s'
      | _ => Bool.eqb (entered s') (entered s)
      end
  | None => true
  end = true.
Proof. destruct s as [[] m c []]; destruct l, m, c; reflexivity. Qed.

Lemma step_true_store l s s' :
  step l s = Some s' ->
  match store l with
  | Some true => entered s = false /\ entered s' = true
  | _ => entered s' = entered s
  end.
Proof.
  intros Hs. pose proof (step_true_store_all l s) as H. rewrite Hs in H.
  destruct (store l) as [[]|].
  - apply andb_true_iff in H. destruct H as (H0 & H1).
    split; [now apply negb_true_iff | exact H1].
  - now apply Bool.eqb_prop.
  - now apply Bool.eqb_prop.
Qed.

Lemma exec_true_stores ls : forall s s',
  exec ls s = Some s' ->
  (true_stores ls + (if entered s then 1 else 0) = (if entered s' then 1 else 0))%nat.
Proof.
  induction ls as [|l ls IH]; intros s s' He.
  - inversion He. reflexivity.
  - cbn [exec] in He. destruct (step l s) as [s1|] eqn:Hs; [|discriminate].
    specialize (IH s1 s' He). pose proof (step_true_store l s s1 Hs) as Hst.
    unfold true_stores in *. cbn [List.filter].
    destruct (store l) as [[]|].
    + destruct Hst as (H0 & H1). rewrite H0. rewrite H1 in IH. cbn [length]. lia.
    + rewrite Hst in IH. exact IH.
    + rewrite Hst in IH. exact IH.
Qed.

(** X25. In every interleaving at most one step stores [true] to the flag
    during the whole run: the number of such steps in a schedule that the
    process can execute is 1 if the capture thread has passed line 134 and
    0 otherwise. *)
Theorem flag_set_true_at_most_once ls s :
  exec ls initial = Some s ->
  true_stores ls = (if entered s then 1 else 0)%nat /\ (true_stores ls <= 1)%nat.
Proof.
  intros He. pose proof (exec_true_stores ls initial s He) as H.
  change (entered initial) with false in H. rewrite Nat.add_0_r in H.
  split; [exact H|]. rewrite H. destruct (entered s); lia.
Qed.

Lemma flag_set_true_at_most_once_witness :
  let s := {| running := false; main := M_spin; capture := C_done; handler := true |} in
  exec [Main_install; Main_spawn; Cap_entry; Sigint; Main_spin; Cap_leave; Cap_exit]
    initial = Some s /\
  true_stores [Main_install; Main_spawn; Cap_entry; Sigint; Main_spin; Cap_leave; Cap_exit]
  = 1%nat.
Proof.
  intros s. split; [reflexivity|].
  destruct (flag_set_true_at_most_once
              [Main_install; Main_spawn; Cap_entry; Sigint; Main_spin; Cap_leave; Cap_exit]
              s eq_refl) as (H & _).
  exact H.
Defined.

End InterleavingFacts.
